(** * Roll, transpose and vstack operators of [np_matrix_op-inl.h]

    A shallow embedding of [src/operator/numpy/np_matrix_op-inl.h]:
    [NumpyTranspose], [NumpyVstackForward], [NumpyVstackBackward],
    [RollDfs], the two roll kernels and [NumpyRollCompute].

    Conventions.
    - [int] is 32 bits wide, [size_t] 64 bits; every narrowing conversion
      the source performs is written out with [int_of] / [size_t_of].
      [dim_t] and [index_t] values (entries of a [TShape], ranks, element
      counts) are 64-bit and are held as [Z].
    - A [TBlob] does not own its memory: it is a shape and a pointer.  The
      memory is a [Store], a finite map from buffer addresses to the
      elements of the buffer.  [reshape] returns a blob with the same pointer.
    - A failed [CHECK_*] or [LOG(FATAL)] is [CheckFailed]; [value()] on an
      empty [dmlc::optional] is [BadOptionalAccess]; an access outside a
      vector or buffer, which is undefined in C++, is [OutOfBounds].
    - [MSHADOW_TYPE_SWITCH] picks the element type [DType]; here the element
      type is a variable of the section, with its addition [dadd]. *)

From Stdlib Require Import ZArith List Lia.
From stdpp Require Import base list gmap.

Local Open Scope Z_scope.

(** ** Machine integers *)

Module Machine.

(** Conversion to a 32-bit [int]. *)
Definition int_of (z : Z) : Z := (z + 2 ^ 31) mod 2 ^ 32 - 2 ^ 31.

(** Conversion to a 64-bit [size_t]. *)
Definition size_t_of (z : Z) : Z := z mod 2 ^ 64.

Definition INT_MAX : Z := 2 ^ 31 - 1.
Definition INT_MIN : Z := - 2 ^ 31.

Definition fits_int (z : Z) : Prop := INT_MIN <= z <= INT_MAX.

(** C++ [%] truncates towards zero. *)
Definition cmod (a b : Z) : Z := Z.rem a b.

End Machine.
Import Machine.

(** ** Errors, results, and the state-and-error monad *)

Inductive error : Type :=
| CheckFailed
| BadOptionalAccess
| OutOfBounds
| OutOfFuel.

Inductive result (A : Type) : Type :=
| Ok (a : A)
| Err (e : error).
Arguments Ok {A} a.
Arguments Err {A} e.

#[export] Instance result_ret : MRet result := fun A a => Ok a.
#[export] Instance result_bind : MBind result := fun A B f m =>
  match m with
  | Ok a => f a
  | Err e => Err e
  end.

(** [v[i]] on a [std::vector] or a [TShape]; outside the vector it is
    undefined behaviour. *)
Definition vec_at {A : Type} (v : list A) (i : Z) : result A :=
  if (i <? 0) then Err OutOfBounds
  else match v !! Z.to_nat i with
       | Some a => Ok a
       | None => Err OutOfBounds
       end.

(** [v[i] = x]. *)
Definition vec_set {A : Type} (v : list A) (i : Z) (x : A) : result (list A) :=
  if (i <? 0) then Err OutOfBounds
  else if (Z.to_nat i <? length v)%nat then Ok (<[Z.to_nat i := x]> v)
  else Err OutOfBounds.

(** [CHECK(b)]. *)
Definition CHECK (b : bool) : result unit :=
  if b then Ok tt else Err CheckFailed.

(** [o.value()] of a [dmlc::optional]. *)
Definition optional_value {A : Type} (o : option A) : result A :=
  match o with
  | Some a => Ok a
  | None => Err BadOptionalAccess
  end.

(** A loop [for (x : l) body], threading the loop state through. *)
Fixpoint for_each {A S : Type} (body : S -> A -> result S) (l : list A) (s : S)
  : result S :=
  match l with
  | [] => Ok s
  | a :: l' => s' ← body s a; for_each body l' s'
  end.

(** The index range of [for (int i = 0; i < n; ++i)]. *)
Definition range (n : Z) : list Z := map Z.of_nat (seq 0 (Z.to_nat n)).

(** ** Shapes *)

(** [TShape::Size()]: the number of elements. *)
Definition Size (shape : list Z) : Z := fold_right Z.mul 1 shape.
Arguments Size : simpl never.

(** [TShape::ndim()]. *)
Definition ndim (shape : list Z) : Z := Z.of_nat (length shape).

(** [mxnet::TShape(n, v)]: [n] entries, all [v]. *)
Definition TShape_fill (n v : Z) : list Z := replicate (Z.to_nat n) v.

(** [Shape2(a, b)]. *)
Definition Shape2 (a b : Z) : list Z := [a; b].

(** The linear offset of a multi-index in a row-major (C-contiguous)
    buffer of the given shape: the stride of an axis is the product of the
    sizes of the axes after it. *)
Fixpoint ravel (shape idx : list Z) : Z :=
  match shape, idx with
  | _ :: ds, j :: js => j * Size ds + ravel ds js
  | _, _ => 0
  end.

(** The multi-index of a linear offset, outermost axis first. *)
Fixpoint unravel (shape : list Z) (k : Z) : list Z :=
  match shape with
  | [] => []
  | _ :: ds => (k / Size ds) :: unravel ds (k mod Size ds)
  end.

(** A multi-index lies inside a shape. *)
Definition in_shape (shape idx : list Z) : Prop :=
  Forall2 (fun d j => 0 <= j < d) shape idx.

(** ** Operator requests, blobs and parameters *)

(** [OpReqType]: the write policy of one output.  The source names
    [kWriteTo] and tells it from the in-place request, which [NumpyTranspose]
    refuses. *)
Inductive OpReqType : Type :=
| kNullOp
| kWriteTo
| kWriteInplace
| kAddTo.

#[export] Instance OpReqType_eq_dec : EqDecision OpReqType.
Proof. solve_decision. Defined.

(** [TBlob]: a shape and a borrowed pointer ([dptr_] names a buffer of the
    store). *)
Record TBlob : Type := mkTBlob {
  shape_ : list Z;
  dptr_ : nat
}.

(** [TBlob::reshape]: another view of the same memory. *)
Definition reshape (b : TBlob) (shape : list Z) : TBlob :=
  {| shape_ := shape; dptr_ := dptr_ b |}.

(** A default-constructed [TBlob], as [std::vector<TBlob> data(n)] holds. *)
Definition TBlob_default : TBlob := {| shape_ := []; dptr_ := 0%nat |}.

(** [NumpyTransposeParam]; [None] is the unknown shape [TShape(-1, 0)]. *)
Record NumpyTransposeParam : Type := {
  axes : option (list Z)
}.

Record NumpyVstackParam : Type := {
  num_args : Z
}.

Record NumpyRollParam : Type := {
  shift : option (list Z);
  axis : option (list Z)
}.

(** [ConcatParam] of [concat-inl.h], as far as this file sets it. *)
Record ConcatParam : Type := {
  concat_num_args : Z;
  concat_dim : Z
}.

(** ** The roll index arithmetic (no memory involved) *)

(** [RollDfs]: appends to [new_index], in depth-first order, the offsets
    [mid + a_index * value[ndim-1-index] + ... + a_(ndim-1)] for every choice
    of [a_k] in [new_axes[k]].  The recursion of the source is on [index];
    [fuel] bounds its depth.  The loop state is [(mid, new_index)]: [mid] is a
    by-value [int], [new_index] is shared through the pointer. *)
Fixpoint RollDfs (fuel : nat) (new_axes : list (list Z)) (value : list Z)
    (new_index : list Z) (index ndim mid : Z) : result (list Z) :=
  match fuel with
  | O => Err OutOfFuel
  | S fuel' =>
    row ← vec_at new_axes index;
    st ← for_each (fun (st : Z * list Z) (a0 : Z) =>
            let '(mid, out) := st in
            let a := int_of a0 in
            if (index =? ndim - 1) then
              Ok (mid, out ++ [size_t_of (int_of (mid + a))])
            else
              v ← vec_at value (ndim - 1 - index);
              let mid1 := int_of (size_t_of (mid + a * v)) in
              out' ← RollDfs fuel' new_axes value out (index + 1) ndim mid1;
              Ok (int_of (size_t_of (mid1 - a * v)), out'))
          row (mid, new_index);
    Ok (snd st)
  end.

(** The axis loop of [NumpyRollCompute]: negative axes get [ndim] added. *)
Definition roll_normalize_axes (nd : Z) (axes : list Z) : list Z :=
  map (fun a => if (a <? 0) then a + nd else a) axes.

(** The validation loop.  Each round checks [axes[i] < ndim] and then
    [axes[0] >= 0] (the source names element 0 there). *)
Definition roll_check_axes (nd : Z) (axes : list Z) : result unit :=
  for_each (fun (_ : unit) (i : Z) =>
      a ← vec_at axes i;
      CHECK (a <? nd);;
      a0 ← vec_at axes 0;
      CHECK (0 <=? a0))
    (range (Z.of_nat (length axes))) tt.

(** The two assignment loops [shifts[axes[i]] = ...]. *)
Definition roll_assign_shifts (axes shift_v shifts : list Z) : result (list Z) :=
  if (Z.of_nat (length shift_v) =? 1) then
    for_each (fun sh i =>
        a ← vec_at axes i;
        s ← vec_at shift_v 0;
        vec_set sh a (int_of s))
      (range (Z.of_nat (length axes))) shifts
  else
    CHECK (Z.of_nat (length shift_v) =? Z.of_nat (length axes));;
    for_each (fun sh i =>
        a ← vec_at axes i;
        s ← vec_at shift_v i;
        vec_set sh a (int_of s))
      (range (Z.of_nat (length axes))) shifts.

(** One round of the loop under the comment "keep shift in a legal range". *)
Definition legal_shift (s d : Z) : Z :=
  let trans_shift := int_of (cmod s d) in
  if (trans_shift <? 0) then int_of (s + d) else trans_shift.

Definition roll_legal_shifts (shape shifts : list Z) : result (list Z) :=
  for_each (fun sh i =>
      s ← vec_at sh i;
      d ← vec_at shape i;
      vec_set sh i (legal_shift s d))
    (range (ndim shape)) shifts.

(** The row pushed for one axis: for every [j], the source index along the
    axis of destination index [j]. *)
Definition roll_axis_row (d s : Z) : list Z :=
  if negb (s =? 0) then
    map (fun j => size_t_of (int_of (cmod (j + d - s) d))) (range d)
  else
    map (fun j => size_t_of j) (range d).

(** The loop that fills [new_axes] and [value]; its state is
    [(new_axes, value, mid_val)]. *)
Definition roll_new_axes (shape shifts : list Z)
  : result (list (list Z) * list Z * Z) :=
  for_each (fun (st : list (list Z) * list Z * Z) i =>
      let '(new_axes, value, mid_val) := st in
      s ← vec_at shifts i;
      d ← vec_at shape i;
      let temp := roll_axis_row d s in
      value' ← vec_set value i (size_t_of mid_val);
      dl ← vec_at shape (ndim shape - 1 - i);
      Ok (new_axes ++ [temp], value', int_of (mid_val * dl)))
    (range (ndim shape))
    ([], replicate (length shape) 0, 1).

(** The table built from the assigned shifts: the legal-range loop, the
    loop over the axes, and the depth-first combination. *)
Definition roll_index_of_shifts (shape shifts : list Z) : result (list Z) :=
  shifts ← roll_legal_shifts shape shifts;
  st ← roll_new_axes shape shifts;
  let '(new_axes, value, _) := st in
  RollDfs (S (length shape)) new_axes value [] 0 (ndim shape) 0.

(** The permutation table of the per-axis mode: everything between the
    axis list and the gather kernel. *)
Definition roll_new_index (shape : list Z) (axis_v : list Z)
    (shift_o : option (list Z)) : result (list Z) :=
  let nd := ndim shape in
  let shifts := replicate (length shape) 0 in
  let axes := roll_normalize_axes nd axis_v in
  roll_check_axes nd axes;;
  shift_v ← optional_value shift_o;
  shifts ← roll_assign_shifts axes shift_v shifts;
  roll_index_of_shifts shape shifts.

(** The effective shift of the flatten mode. *)
Definition roll_flat_shift (s0 input_size : Z) : Z :=
  let shift := int_of s0 in
  let shift := int_of (cmod shift input_size) in
  if (shift <? 0) then int_of (size_t_of (shift + input_size)) else shift.

(** The source offset computed by [RollAxisNone_forward::Map]. *)
Definition roll_flat_index (i size shift : Z) : Z :=
  if (int_of (i - shift) <? 0) then int_of (i - shift + size)
  else int_of (i - shift).

(** ** Memory, kernels and the operators *)

Section Operators.

(** The element type chosen by [MSHADOW_TYPE_SWITCH], and its [+=]. *)
Context {DType : Type} (dadd : DType -> DType -> DType).

(** Device memory: the buffer behind each pointer. *)
Abbreviation Store := (gmap nat (list DType)) (only parsing).

(** A computation on the memory that may fail; the memory at the point of
    failure is kept. *)
Definition M (A : Type) : Type := Store -> result A * Store.

#[export] Instance M_ret : MRet M := fun A a st => (Ok a, st).
#[export] Instance M_bind : MBind M := fun A B f m st =>
  match m st with
  | (Ok a, st') => f a st'
  | (Err e, st') => (Err e, st')
  end.

(** A computation that does not touch the memory. *)
Definition lift {A : Type} (r : result A) : M A := fun st => (r, st).

(** [p[i]] read from the buffer of [p]. *)
Definition read_at (p : nat) (i : Z) : M DType := fun st =>
  match st !! p with
  | Some buf => (vec_at buf i, st)
  | None => (Err OutOfBounds, st)
  end.

(** [p[i] = v]. *)
Definition write_at (p : nat) (i : Z) (v : DType) : M unit := fun st =>
  match st !! p with
  | Some buf =>
      match vec_set buf i v with
      | Ok buf' => (Ok tt, <[p := buf']> st)
      | Err e => (Err e, st)
      end
  | None => (Err OutOfBounds, st)
  end.

(** Modelled from the spec: the macro [KERNEL_ASSIGN(out, req, val)] is
    declared outside this file; the write policy is "overwrite, accumulate
    or skip", applied to one element. *)
Definition KERNEL_ASSIGN (out : nat) (i : Z) (req : OpReqType) (val : M DType)
  : M unit :=
  match req with
  | kNullOp => mret tt
  | kWriteTo | kWriteInplace => v ← val; write_at out i v
  | kAddTo => v ← val; old ← read_at out i; write_at out i (dadd old v)
  end.

(** Modelled from the spec: the macro [MXNET_ASSIGN_REQ_SWITCH] is declared
    outside this file; it instantiates the kernel for the write policy and
    does nothing for the skip policy. *)
Definition MXNET_ASSIGN_REQ_SWITCH (req : OpReqType) (body : OpReqType -> M unit)
  : M unit :=
  match req with
  | kNullOp => mret tt
  | kWriteTo | kWriteInplace => body kWriteTo
  | kAddTo => body kAddTo
  end.

(** A loop over a list in [M]. *)
Fixpoint for_eachM {A : Type} (body : A -> M unit) (l : list A) : M unit :=
  match l with
  | [] => mret tt
  | a :: l' => body a;; for_eachM body l'
  end.

(** Modelled from the spec: [Kernel<OP, xpu>::Launch(s, N, args...)] is the
    external launch facility; it runs one unit of work [OP::Map(i, args...)]
    per element [i] in [0, N), the units being independent. *)
Definition Launch (N : Z) (Map : Z -> M unit) : M unit :=
  for_eachM Map (range N).

(** [RollAxisNone_forward<req>::Map]. *)
Definition RollAxisNone_forward (req : OpReqType) (i0 : Z)
    (out_data in_data : nat) (size0 shift : Z) : M unit :=
  let i := int_of i0 in
  let size := int_of size0 in
  let new_index := roll_flat_index i size shift in
  KERNEL_ASSIGN out_data i req (read_at in_data new_index).

(** [RollAxis_forward<req>::Map]. *)
Definition RollAxis_forward (req : OpReqType) (i0 : Z)
    (out_data in_data : nat) (new_index : list Z) : M unit :=
  let i := int_of i0 in
  KERNEL_ASSIGN out_data i req
    (k ← lift (vec_at new_index i); read_at in_data k).

(** [NumpyRollCompute].  The permutation table is built on the host by
    [roll_new_index]; the copy of the table into the workspace on the
    device keeps its contents. *)
Definition NumpyRollCompute (param : NumpyRollParam)
    (inputs : list TBlob) (req : list OpReqType) (outputs : list TBlob)
  : M unit :=
  lift (CHECK (Z.of_nat (length inputs) =? 1));;
  lift (CHECK (Z.of_nat (length outputs) =? 1));;
  lift (CHECK (Z.of_nat (length req) =? 1));;
  in0 ← lift (vec_at inputs 0);
  if (Size (shape_ in0) =? 0) then mret tt
  else
    let input_size := Size (shape_ in0) in
    match axis param with
    | None =>
        shift_v ← lift (optional_value (shift param));
        s0 ← lift (vec_at shift_v 0);
        let shift := roll_flat_shift s0 input_size in
        out0 ← lift (vec_at outputs 0);
        req0 ← lift (vec_at req 0);
        MXNET_ASSIGN_REQ_SWITCH req0 (fun req_type =>
          Launch (Size (shape_ out0)) (fun i =>
            RollAxisNone_forward req_type i (dptr_ out0) (dptr_ in0)
              input_size shift))
    | Some axis_v =>
        new_index ← lift (roll_new_index (shape_ in0) axis_v (shift param));
        out0 ← lift (vec_at outputs 0);
        req0 ← lift (vec_at req 0);
        MXNET_ASSIGN_REQ_SWITCH req0 (fun req_type =>
          Launch (Size (shape_ out0)) (fun i =>
            RollAxis_forward req_type i (dptr_ out0) (dptr_ in0) new_index))
    end.

(** *** Transpose *)

(** Modelled from the spec: [TransposeImpl] is declared in
    [../tensor/matrix_op-inl.h].  The spec gives its element rule: the
    output element at a multi-index equals the input element at the
    multi-index permuted by [axes], output axis [i] being input axis
    [axes[i]].  [transpose_source axes idx] is that permuted multi-index:
    its entry [axes[i]] is [idx[i]]. *)
Definition transpose_source (axes idx : list Z) : result (list Z) :=
  for_each (fun src i =>
      a ← vec_at axes i;
      j ← vec_at idx i;
      vec_set src a j)
    (range (ndim axes)) (replicate (length axes) 0).

(** Modelled from the spec: the strided copy of [TransposeImpl], one
    output element per unit of work, written unconditionally. *)
Definition TransposeImpl (src ret : TBlob) (axes : list Z) : M unit :=
  Launch (Size (shape_ ret)) (fun k =>
    KERNEL_ASSIGN (dptr_ ret) k kWriteTo
      (off ← lift (idx ← transpose_source axes (unravel (shape_ ret) k);
                   Ok (ravel (shape_ src) idx));
       read_at (dptr_ src) off)).

(** The loop [axes[i] = axes.ndim() - 1 - i] of the default case. *)
Definition transpose_default_axes (nd : Z) : result (list Z) :=
  let axes := TShape_fill nd (-1) in
  for_each (fun ax i => vec_set ax i (ndim ax - 1 - i)) (range (ndim axes)) axes.

(** [NumpyTranspose]. *)
Definition NumpyTranspose (param : NumpyTransposeParam)
    (inputs : list TBlob) (req : list OpReqType) (outputs : list TBlob)
  : M unit :=
  req0 ← lift (vec_at req 0);
  lift (CHECK (bool_decide (req0 = kWriteTo)));;
  match axes param with
  | Some ax =>
      in0 ← lift (vec_at inputs 0);
      out0 ← lift (vec_at outputs 0);
      TransposeImpl in0 out0 ax
  | None =>
      in0 ← lift (vec_at inputs 0);
      ax ← lift (transpose_default_axes (ndim (shape_ in0)));
      out0 ← lift (vec_at outputs 0);
      TransposeImpl in0 out0 ax
  end.

(** *** Vstack *)

(** The body of the loop under "reshape if necessary": a blob of rank 0
    or 1 is reshaped to [Shape2(1, Size)], any other is taken as it is. *)
Definition vstack_row_view (b : TBlob) : TBlob :=
  if (ndim (shape_ b) =? 0) || (ndim (shape_ b) =? 1) then
    reshape b (Shape2 1 (Size (shape_ b)))
  else b.

(** The loop itself: [data] starts as [num_args] default blobs and slot [i]
    becomes the row view of [blobs[i]]. *)
Definition vstack_data (num_args : Z) (blobs : list TBlob) : result (list TBlob) :=
  for_each (fun data i =>
      b ← vec_at blobs i;
      vec_set data i (vstack_row_view b))
    (range num_args) (replicate (Z.to_nat num_args) TBlob_default).

Section Vstack.

(** The external concatenation primitive [ConcatOp<xpu, DType>] of
    [../nn/concat-inl.h], after [Init(cparam)]: its two operations. *)
Context (ConcatOp_Forward :
           ConcatParam -> list TBlob -> list OpReqType -> list TBlob -> M unit)
        (ConcatOp_Backward :
           ConcatParam -> TBlob -> list OpReqType -> list TBlob -> M unit).

(** [NumpyVstackForward]. *)
Definition NumpyVstackForward (param : NumpyVstackParam)
    (inputs : list TBlob) (req : list OpReqType) (outputs : list TBlob)
  : M unit :=
  lift (CHECK (Z.of_nat (length inputs) =? num_args param));;
  lift (CHECK (Z.of_nat (length outputs) =? 1));;
  lift (CHECK (Z.of_nat (length req) =? 1));;
  data ← lift (vstack_data (num_args param) inputs);
  let cparam := {| concat_num_args := num_args param; concat_dim := 0 |} in
  _ ← lift (vec_at inputs 0);
  ConcatOp_Forward cparam data req outputs.

(** [NumpyVstackBackward]. *)
Definition NumpyVstackBackward (param : NumpyVstackParam)
    (inputs : list TBlob) (req : list OpReqType) (outputs : list TBlob)
  : M unit :=
  lift (CHECK (Z.of_nat (length inputs) =? 1));;
  lift (CHECK (Z.of_nat (length outputs) =? num_args param));;
  lift (CHECK (Z.of_nat (length req) =? num_args param));;
  data ← lift (vstack_data (num_args param) outputs);
  let cparam := {| concat_num_args := num_args param; concat_dim := 0 |} in
  in0 ← lift (vec_at inputs 0);
  ConcatOp_Backward cparam in0 req data.

End Vstack.

(** Modelled from the spec: the external concatenation primitive
    [ConcatOp::Forward] for [dim = 0] on row views.  In row-major layout the
    rows of the inputs follow one another, so output element [k] is assigned
    element [k] of the inputs' elements put end to end, under the write
    policy of the output. *)
Definition concat0_Forward (cparam : ConcatParam) (data : list TBlob)
    (req : list OpReqType) (outputs : list TBlob) : M unit :=
  fun st =>
    let all := flat_map (fun b => default [] (st !! dptr_ b)) data in
    (out0 ← lift (vec_at outputs 0);
     req0 ← lift (vec_at req 0);
     MXNET_ASSIGN_REQ_SWITCH req0 (fun req_type =>
       Launch (Size (shape_ out0)) (fun k =>
         KERNEL_ASSIGN (dptr_ out0) k req_type (lift (vec_at all k))))) st.

(** Modelled from the spec: [ConcatOp::Backward] for [dim = 0] on row
    views.  Slot [i] receives, under its own write policy, the piece of the
    incoming gradient that starts where the pieces of the slots before it
    end. *)
Fixpoint concat0_split (grad : nat) (offset : Z) (req : list OpReqType)
    (data : list TBlob) : M unit :=
  match data, req with
  | b :: data', r :: req' =>
      MXNET_ASSIGN_REQ_SWITCH r (fun req_type =>
        Launch (Size (shape_ b)) (fun k =>
          KERNEL_ASSIGN (dptr_ b) k req_type (read_at grad (offset + k))));;
      concat0_split grad (offset + Size (shape_ b)) req' data'
  | _, _ => mret tt
  end.

Definition concat0_Backward (cparam : ConcatParam) (grad : TBlob)
    (req : list OpReqType) (data : list TBlob) : M unit :=
  concat0_split (dptr_ grad) 0 req data.

End Operators.

(** ** Specification-level functions *)

(** All offsets [mid + sum_k a_k * stride_k] with [a_k] drawn from
    [rows[k]], the first axis varying slowest; [ds] gives the strides. *)
Fixpoint dfs_table (rows : list (list Z)) (ds : list Z) (mid : Z) : list Z :=
  match rows, ds with
  | row :: rows', _ :: ds' =>
      flat_map (fun a => dfs_table rows' ds' (mid + a * Size ds')) row
  | _, _ => [mid]
  end.

(** The multi-index picked out of per-axis rows by a multi-index. *)
Fixpoint pick (rows : list (list Z)) (idx : list Z) : list Z :=
  match rows, idx with
  | row :: rows', j :: js => default 0 (row !! Z.to_nat j) :: pick rows' js
  | _, _ => []
  end.

(** The source multi-index of a roll: along every axis,
    [(j + d - s) mod d] with the mathematical (floor) modulus. *)
Fixpoint roll_source (shape shifts idx : list Z) : list Z :=
  match shape, shifts, idx with
  | d :: ds, s :: ss, j :: js => (j + d - s) mod d :: roll_source ds ss js
  | _, _, _ => []
  end.

(** What [RollDfs] needs of the vectors [NumpyRollCompute] hands to it. *)
Definition dfs_ready (new_axes : list (list Z)) (value ds : list Z) : Prop :=
  length new_axes = length ds /\
  length value = length ds /\
  (forall k : nat, (k < length ds)%nat ->
     value !! (length ds - 1 - k)%nat = Some (Size (drop (S k) ds))) /\
  Forall2 (fun row d => Forall (fun a => 0 <= a < d) row) new_axes ds /\
  Forall (fun d => 0 < d) ds.

(** The shifts vector after the assignments [shifts[a] = s] for the pairs
    [(a, s)], performed in order. *)
Definition assign_pairs (pairs : list (Z * Z)) (shifts : list Z) : list Z :=
  fold_left (fun sh p => <[Z.to_nat (fst p) := int_of (snd p)]> sh) pairs shifts.

(** The axis list is accepted by the validation loop. *)
Definition axes_accepted (nd : Z) (axes : list Z) : bool :=
  forallb (fun a => (a <? nd) && (0 <=? hd 0 axes)) axes.

(** The (axis, shift) pairs of a call: a one-element shift list is paired
    with every named axis, a longer one position by position. *)
Definition shift_pairs (axes shift_v : list Z) : list (Z * Z) :=
  if decide (length shift_v = 1%nat)
  then zip axes (replicate (length axes) (hd 0 shift_v))
  else zip axes shift_v.

(** The shift of every axis of an input of rank [nd], before the
    legal-range step: the shifts vector starts as zeros. *)
Definition per_axis_shifts (nd : nat) (axes shift_v : list Z) : list Z :=
  assign_pairs (shift_pairs axes shift_v) (replicate nd 0).

(** The write policy [MXNET_ASSIGN_REQ_SWITCH] instantiates the kernel
    with. *)
Definition kernel_req (req : OpReqType) : OpReqType :=
  match req with
  | kWriteInplace => kWriteTo
  | _ => req
  end.

(** The value an element holds after [KERNEL_ASSIGN] of [v] onto [old]. *)
Definition assign_value {DType : Type} (dadd : DType -> DType -> DType)
    (req : OpReqType) (old v : DType) : DType :=
  match req with
  | kNullOp => old
  | kWriteTo | kWriteInplace => v
  | kAddTo => dadd old v
  end.

(** The output buffer after a gather: element [i] is assigned the input
    element at offset [src i], under the write policy. *)
Definition gather {DType : Type} (dadd : DType -> DType -> DType)
    (req : OpReqType) (inb outb : list DType) (src : nat -> nat) : list DType :=
  imap (fun i old => from_option (assign_value dadd req old) old (inb !! src i)) outb.


(** Example data: the 2x3 array [[1,2,3],[4,5,6]] at address 1 and a zeroed
    2x3 output at address 2. *)
Definition ex_store : gmap nat (list Z) :=
  <[1%nat := [1; 2; 3; 4; 5; 6]]> (<[2%nat := [0; 0; 0; 0; 0; 0]]> ∅).
Definition ex_in : TBlob := {| shape_ := [2; 3]; dptr_ := 1 |}.
Definition ex_out : TBlob := {| shape_ := [2; 3]; dptr_ := 2 |}.

(** The full reversal of [n] axes: entry [i] is [n - 1 - i]. *)
Definition reversal (n : nat) : list Z :=
  map (fun i : nat => Z.of_nat n - 1 - Z.of_nat i) (seq 0 n).

(** Example data for vstack: inputs of shapes (3,), (1,3) and (2,3) at
    addresses 1, 2 and 3, and a (4,3) buffer at address 4. *)
Definition ex_rows : list TBlob :=
  [{| shape_ := [3]; dptr_ := 1 |};
   {| shape_ := [1; 3]; dptr_ := 2 |};
   {| shape_ := [2; 3]; dptr_ := 3 |}].
Definition ex_stacked : TBlob := {| shape_ := [4; 3]; dptr_ := 4 |}.
Definition ex_vstore (stacked : list Z) : gmap nat (list Z) :=
  <[1%nat := [1; 2; 3]]>
    (<[2%nat := [4; 5; 6]]>
       (<[3%nat := [7; 8; 9; 10; 11; 12]]> (<[4%nat := stacked]> ∅))).




(** * Properties *)

(** ** Machine integers *)

(** Closes a goal of integer arithmetic once the [int] bounds are spelled
    out. *)
Ltac int_bounds := unfold fits_int, INT_MIN, INT_MAX in *; lia.

Lemma int_of_fits z : fits_int z -> int_of z = z.
Proof.
  unfold fits_int, INT_MIN, INT_MAX, int_of. intros H.
  rewrite Z.mod_small; lia.
Qed.

Lemma size_t_of_small z : 0 <= z < 2 ^ 64 -> size_t_of z = z.
Proof. unfold size_t_of. intros H. apply Z.mod_small; lia. Qed.

Lemma size_t_of_int z : 0 <= z <= INT_MAX -> size_t_of z = z.
Proof. unfold INT_MAX. intros H. apply size_t_of_small. lia. Qed.

Lemma cmod_nonneg a b : 0 <= a -> 0 < b -> cmod a b = a mod b.
Proof. intros Ha Hb. unfold cmod. apply Z.rem_mod_nonneg; lia. Qed.

(** ** Vectors and loops *)

Lemma vec_at_nat {A} (v : list A) (i : nat) a :
  v !! i = Some a -> vec_at v (Z.of_nat i) = Ok a.
Proof.
  intros H. unfold vec_at.
  destruct (Z.ltb_spec (Z.of_nat i) 0); [lia|].
  by rewrite Nat2Z.id, H.
Qed.

Lemma vec_at_Ok {A} (v : list A) (i : Z) a :
  vec_at v i = Ok a <-> 0 <= i /\ v !! Z.to_nat i = Some a.
Proof.
  unfold vec_at. destruct (Z.ltb_spec i 0).
  - split; [discriminate | lia].
  - destruct (v !! Z.to_nat i) eqn:E; split; intros H1;
      try discriminate; try (destruct H1; congruence).
    inversion H1; subst. auto.
Qed.

Lemma vec_set_nat {A} (v : list A) (i : nat) x :
  (i < length v)%nat -> vec_set v (Z.of_nat i) x = Ok (<[i := x]> v).
Proof.
  intros H. unfold vec_set.
  destruct (Z.ltb_spec (Z.of_nat i) 0); [lia|].
  rewrite Nat2Z.id.
  destruct (Nat.ltb_spec i (length v)); [done | lia].
Qed.

Lemma vec_set_Ok {A} (v : list A) (i : Z) x :
  0 <= i < Z.of_nat (length v) -> vec_set v i x = Ok (<[Z.to_nat i := x]> v).
Proof.
  intros H. rewrite <- (Z2Nat.id i) at 1 by lia.
  apply vec_set_nat. lia.
Qed.

Lemma range_length n : length (range n) = Z.to_nat n.
Proof. unfold range. by rewrite length_map, length_seq. Qed.

Lemma range_lookup n (i : nat) :
  (i < Z.to_nat n)%nat -> range n !! i = Some (Z.of_nat i).
Proof.
  intros H. unfold range. rewrite list_lookup_fmap.
  rewrite lookup_seq_lt by done. done.
Qed.

Lemma for_each_app {A S} (body : S -> A -> result S) l1 l2 s :
  for_each body (l1 ++ l2) s = (s' ← for_each body l1 s; for_each body l2 s').
Proof.
  revert s. induction l1 as [|a l1 IH]; intros s; simpl; [done|].
  destruct (body s a); simpl; [apply IH | done].
Qed.

(** Loop invariants for [for (i = 0; i < n; ++i)]. *)
Lemma for_each_range_inv {S} (P : nat -> S -> Prop) (body : S -> Z -> result S)
    (n : nat) (s0 : S) :
  P 0%nat s0 ->
  (forall i s, (i < n)%nat -> P i s ->
     exists s', body s (Z.of_nat i) = Ok s' /\ P (Datatypes.S i) s') ->
  exists s', for_each body (range (Z.of_nat n)) s0 = Ok s' /\ P n s'.
Proof.
  intros H0 Hstep. unfold range. rewrite Nat2Z.id.
  assert (Hgen : forall len a s, (a + len = n)%nat -> P a s ->
    exists s', for_each body (map Z.of_nat (seq a len)) s = Ok s' /\ P n s').
  { induction len as [|len IH]; intros a s Hlen Ha; simpl.
    - replace n with a by lia. eauto.
    - destruct (Hstep a s) as (s1 & Hb & HP); [lia | done |].
      rewrite Hb. simpl. apply IH; [lia | done]. }
  apply (Hgen n 0%nat s0); [lia | done].
Qed.

(** ** Shapes and offsets *)

Lemma Size_cons d ds : Size (d :: ds) = d * Size ds.
Proof. reflexivity. Qed.

Lemma Size_pos ds : Forall (fun d => 0 < d) ds -> 0 < Size ds.
Proof.
  induction 1 as [|d ds Hd _ IH]; [reflexivity|].
  rewrite Size_cons. lia.
Qed.

Lemma Size_nonneg ds : Forall (fun d => 0 <= d) ds -> 0 <= Size ds.
Proof.
  induction 1 as [|d ds Hd _ IH]; [change (Size []) with 1; lia|].
  rewrite Size_cons. lia.
Qed.

Lemma Size_app ds1 ds2 : Size (ds1 ++ ds2) = Size ds1 * Size ds2.
Proof.
  induction ds1 as [|d ds1 IH]; simpl.
  - change (Size []) with 1. lia.
  - rewrite !Size_cons, IH. lia.
Qed.

Lemma Size_drop_le ds (i : nat) :
  Forall (fun d => 0 < d) ds -> Size (drop i ds) <= Size ds.
Proof.
  intros H. rewrite <- (take_drop i ds) at 2. rewrite Size_app.
  assert (0 < Size (take i ds)) by (apply Size_pos, Forall_take, H).
  assert (0 < Size (drop i ds)) by (apply Size_pos, Forall_drop, H).
  nia.
Qed.

Lemma ravel_bounds ds js : in_shape ds js -> 0 <= ravel ds js < Size ds.
Proof.
  induction 1 as [|d j ds js Hj _ IH]; simpl.
  - change (Size []) with 1; lia.
  - rewrite Size_cons.
    assert (0 <= j * Size ds) by nia.
    assert ((j + 1) * Size ds <= d * Size ds) by nia.
    lia.
Qed.

Lemma unravel_in_shape ds k :
  Forall (fun d => 0 < d) ds -> 0 <= k < Size ds -> in_shape ds (unravel ds k).
Proof.
  intros Hds. revert k. induction Hds as [|d ds Hd Hds IH]; intros k Hk; simpl.
  - constructor.
  - rewrite Size_cons in Hk. pose proof (Size_pos ds Hds) as HS.
    constructor.
    + split; [apply Z.div_pos; lia|].
      apply Z.div_lt_upper_bound; lia.
    + apply IH. apply Z.mod_pos_bound. lia.
Qed.

Lemma ravel_unravel ds k :
  Forall (fun d => 0 < d) ds -> 0 <= k < Size ds -> ravel ds (unravel ds k) = k.
Proof.
  intros Hds. revert k. induction Hds as [|d ds Hd Hds IH]; intros k Hk; simpl.
  - change (Size []) with 1 in Hk. lia.
  - pose proof (Size_pos ds Hds) as HS.
    rewrite IH by (apply Z.mod_pos_bound; lia).
    rewrite (Z.div_mod k (Size ds)) at 3 by lia. lia.
Qed.

Lemma unravel_ravel ds js : in_shape ds js -> unravel ds (ravel ds js) = js.
Proof.
  induction 1 as [|d j ds js Hj Hjs IH]; simpl; [done|].
  pose proof (ravel_bounds ds js Hjs) as Hb.
  f_equal.
  - rewrite Z.add_comm, Z.div_add by lia. rewrite Z.div_small; lia.
  - rewrite Z.add_comm, Z.mod_add by lia. rewrite Z.mod_small by lia. done.
Qed.

(** ** The depth-first table of [RollDfs] *)

Lemma for_each_flat (body : Z * list Z -> Z -> result (Z * list Z))
    (g : Z -> list Z) (row : list Z) (mid : Z) (out : list Z) :
  (forall a out', a ∈ row -> body (mid, out') a = Ok (mid, out' ++ g a)) ->
  for_each body row (mid, out) = Ok (mid, out ++ flat_map g row).
Proof.
  revert out. induction row as [|a row IH]; intros out Hbody; simpl.
  - by rewrite app_nil_r.
  - rewrite Hbody by apply list_elem_of_here. simpl.
    rewrite IH.
    + by rewrite <- app_assoc.
    + intros a' out' Ha'. apply Hbody. by apply list_elem_of_further.
Qed.

Lemma RollDfs_table fuel new_axes value ds (i : nat) mid out :
  dfs_ready new_axes value ds ->
  (i < length ds)%nat ->
  (length ds - i <= fuel)%nat ->
  0 <= mid ->
  mid + Size (drop i ds) <= INT_MAX + 1 ->
  RollDfs fuel new_axes value out (Z.of_nat i) (ndim ds) mid
  = Ok (out ++ dfs_table (drop i new_axes) (drop i ds) mid).
Proof.
  intros (Hlen & Hvlen & Hval & Hrows & Hpos).
  revert i mid out.
  induction fuel as [|fuel IH]; intros i mid out Hi Hfuel Hmid Hmax; [lia|].
  destruct (lookup_lt_is_Some_2 ds i Hi) as [d Hd].
  destruct (lookup_lt_is_Some_2 new_axes i) as [row Hrow]; [lia|].
  pose proof (Forall2_lookup_lr _ _ _ _ _ _ Hrows Hrow Hd) as Hrange.
  rewrite (drop_S _ _ _ Hd) in *. rewrite (drop_S _ _ _ Hrow).
  assert (HS : 0 < Size (drop (S i) ds)) by (apply Size_pos, Forall_drop, Hpos).
  rewrite Size_cons in Hmax.
  cbn [RollDfs]. rewrite (vec_at_nat _ _ _ Hrow). cbn [mbind result_bind].
  rewrite (for_each_flat _ (fun a => dfs_table (drop (S i) new_axes)
             (drop (S i) ds) (mid + a * Size (drop (S i) ds)))); [reflexivity|].
  intros a out' Ha. rewrite Forall_forall in Hrange.
  specialize (Hrange a Ha).
  assert (Hle : (a + 1) * Size (drop (S i) ds) <= d * Size (drop (S i) ds)) by nia.
  assert (0 <= a * Size (drop (S i) ds)) by nia.
  rewrite (int_of_fits a) by (unfold fits_int, INT_MIN, INT_MAX in *; nia).
  unfold ndim. destruct (Z.eqb_spec (Z.of_nat i) (Z.of_nat (length ds) - 1)) as [Hlast|Hmore].
  - assert (Hnil : drop (S i) ds = []) by (apply drop_ge; lia).
    assert (Hnil' : drop (S i) new_axes = []) by (apply drop_ge; lia).
    rewrite Hnil in *. rewrite Hnil'. change (Size []) with 1 in *.
    simpl. rewrite int_of_fits by int_bounds.
    rewrite size_t_of_int by (unfold INT_MAX in *; lia).
    by rewrite Z.mul_1_r.
  - replace (Z.of_nat (length ds) - 1 - Z.of_nat i)
      with (Z.of_nat (length ds - 1 - i)) by lia.
    rewrite (vec_at_nat _ _ _ (Hval i Hi)). cbn [mbind result_bind].
    set (mid1 := mid + a * Size (drop (S i) ds)).
    assert (Hmid1 : 0 <= mid1 /\ mid1 + Size (drop (S i) ds) <= INT_MAX + 1)
      by (unfold mid1; lia).
    rewrite (size_t_of_int mid1) by lia.
    rewrite (int_of_fits mid1) by int_bounds.
    replace (Z.of_nat i + 1) with (Z.of_nat (S i)) by lia.
    change (Z.of_nat (length ds)) with (ndim ds).
    rewrite IH by lia. cbn [mbind result_bind].
    replace (mid1 - a * Size (drop (S i) ds)) with mid by (unfold mid1; lia).
    rewrite size_t_of_int by (unfold INT_MAX in *; lia).
    rewrite int_of_fits by int_bounds.
    reflexivity.
Qed.

Lemma flat_map_length_uniform {A B} (f : A -> list B) (l : list A) (c : nat) :
  (forall a, a ∈ l -> length (f a) = c) ->
  length (flat_map f l) = (length l * c)%nat.
Proof.
  induction l as [|a l IH]; intros Hf; simpl; [done|].
  rewrite length_app, Hf by apply list_elem_of_here.
  rewrite IH; [lia|]. intros a' Ha'. apply Hf. by apply list_elem_of_further.
Qed.

Lemma flat_map_lookup_uniform {A B} (f : A -> list B) (l : list A) (c j r : nat) a :
  (forall a, a ∈ l -> length (f a) = c) ->
  l !! j = Some a -> (r < c)%nat ->
  flat_map f l !! (j * c + r)%nat = f a !! r.
Proof.
  revert j. induction l as [|a0 l IH]; intros j Hf Hj Hr; [done|].
  simpl. destruct j as [|j]; simpl in Hj.
  - inversion Hj; subst. simpl.
    apply lookup_app_l. rewrite Hf by apply list_elem_of_here. done.
  - rewrite lookup_app_r by (rewrite Hf by apply list_elem_of_here; lia).
    rewrite Hf by apply list_elem_of_here.
    replace (S j * c + r - c)%nat with (j * c + r)%nat by lia.
    apply IH; [|done|done].
    intros a' Ha'. apply Hf. by apply list_elem_of_further.
Qed.

Lemma dfs_table_length rows ds mid :
  Forall2 (fun row d => length row = Z.to_nat d) rows ds ->
  Forall (fun d => 0 < d) ds ->
  length (dfs_table rows ds mid) = Z.to_nat (Size ds).
Proof.
  intros H. revert mid. induction H as [|row d rows ds Hrow _ IH]; intros mid Hpos.
  - reflexivity.
  - inversion Hpos as [|? ? Hd Hds]; subst. simpl.
    rewrite (flat_map_length_uniform _ _ (Z.to_nat (Size ds))).
    + rewrite Hrow, Size_cons. pose proof (Size_pos ds Hds). lia.
    + intros a _. by apply IH.
Qed.

Lemma dfs_table_lookup rows ds js mid :
  Forall2 (fun row d => length row = Z.to_nat d) rows ds ->
  Forall (fun d => 0 < d) ds ->
  in_shape ds js ->
  dfs_table rows ds mid !! Z.to_nat (ravel ds js)
  = Some (mid + ravel ds (pick rows js)).
Proof.
  intros H. revert js mid.
  induction H as [|row d rows ds Hrow Hrows IH]; intros js mid Hpos Hin.
  - inversion Hin; subst. simpl. f_equal. lia.
  - inversion Hpos as [|? ? Hd Hds]; subst.
    inversion Hin as [|? j ? js' Hj Hjs]; subst.
    pose proof (ravel_bounds _ _ Hjs) as Hr.
    pose proof (Size_pos ds Hds) as HS.
    destruct (lookup_lt_is_Some_2 row (Z.to_nat j)) as [a Ha]; [lia|].
    cbn [dfs_table ravel pick]. rewrite Ha. cbn [default].
    replace (Z.to_nat (j * Size ds + ravel ds js'))
      with (Z.to_nat j * Z.to_nat (Size ds) + Z.to_nat (ravel ds js'))%nat by nia.
    rewrite (flat_map_lookup_uniform _ _ _ _ _ a); [| |done|lia].
    + rewrite IH by done. f_equal. unfold id. lia.
    + intros a' _. by apply dfs_table_length.
Qed.

(** ** The legal-range step and the per-axis rows *)

Lemma cmod_bounds a b : 0 < b -> - b < cmod a b < b.
Proof.
  intros Hb. unfold cmod.
  pose proof (Z.rem_bound_abs a b). lia.
Qed.

Lemma cmod_congr a b : 0 < b -> cmod a b mod b = a mod b.
Proof.
  intros Hb. unfold cmod.
  pose proof (Z.quot_rem' a b) as E.
  rewrite E at 2.
  rewrite Z.add_comm, Z.mul_comm, Z.mod_add by lia. done.
Qed.

Lemma cmod_sign a b : 0 < b -> cmod a b < 0 -> a < 0.
Proof.
  intros Hb Hneg. unfold cmod in Hneg.
  destruct (Z.le_gt_cases 0 a) as [Ha|Ha]; [|done].
  pose proof (Z.rem_bound_pos a b Ha Hb). lia.
Qed.

(** Within the [int] range, the legal-range step is [s + d] when the
    truncated remainder is negative, and the remainder otherwise. *)
Lemma legal_shift_unfold s d :
  fits_int s -> 0 < d <= INT_MAX ->
  legal_shift s d = if (cmod s d <? 0) then s + d else cmod s d.
Proof.
  intros Hs Hd. unfold legal_shift.
  pose proof (cmod_bounds s d) as Hb.
  rewrite (int_of_fits (cmod s d))
    by int_bounds.
  destruct (Z.ltb_spec (cmod s d) 0) as [Hneg|Hnn]; [|done].
  pose proof (cmod_sign s d). apply int_of_fits. int_bounds.
Qed.

Lemma legal_shift_congr s d :
  fits_int s -> 0 < d <= INT_MAX -> legal_shift s d mod d = s mod d.
Proof.
  intros Hs Hd. rewrite legal_shift_unfold by done.
  destruct (Z.ltb_spec (cmod s d) 0).
  - rewrite <- (Z.mul_1_l d) at 1. rewrite Z.mod_add by lia. done.
  - apply cmod_congr. lia.
Qed.

Lemma legal_shift_upper s d :
  fits_int s -> 0 < d <= INT_MAX -> INT_MIN <= legal_shift s d < d.
Proof.
  intros Hs Hd. rewrite legal_shift_unfold by done.
  pose proof (cmod_bounds s d). pose proof (cmod_sign s d).
  destruct (Z.ltb_spec (cmod s d) 0); int_bounds.
Qed.

(** For a shift not below [-d] the step yields the floor-mod. *)
Lemma legal_shift_floor_mod s d :
  fits_int s -> 0 < d <= INT_MAX -> - d <= s -> legal_shift s d = s mod d.
Proof.
  intros Hs Hd Hlow. rewrite legal_shift_unfold by done.
  pose proof (cmod_bounds s d) as Hb. pose proof (cmod_congr s d) as Hc.
  destruct (Z.ltb_spec (cmod s d) 0) as [Hneg|Hnn].
  - pose proof (cmod_sign s d).
    symmetry. rewrite <- (Z.mod_add s 1 d) by lia.
    rewrite Z.mul_1_l. apply Z.mod_small. lia.
  - rewrite <- Hc by lia. rewrite Z.mod_small; lia.
Qed.

Lemma roll_axis_row_length d s : length (roll_axis_row d s) = Z.to_nat d.
Proof.
  unfold roll_axis_row. destruct (negb (s =? 0));
    by rewrite length_map, range_length.
Qed.

Lemma roll_axis_row_lookup d s0 j :
  fits_int s0 -> 0 < d <= INT_MAX -> 0 <= j < d ->
  roll_axis_row d (legal_shift s0 d) !! Z.to_nat j = Some ((j + d - s0) mod d).
Proof.
  intros Hs Hd Hj.
  pose proof (legal_shift_upper s0 d Hs Hd) as Hup.
  pose proof (legal_shift_congr s0 d Hs Hd) as Hc.
  assert (Hgoal : (j + d - legal_shift s0 d) mod d = (j + d - s0) mod d).
  { rewrite (Zminus_mod (j + d) (legal_shift s0 d)), Hc.
    by rewrite <- Zminus_mod. }
  pose proof (Z.mod_pos_bound (j + d - s0) d) as Hm.
  unfold roll_axis_row.
  destruct (Z.eqb_spec (legal_shift s0 d) 0) as [Hz|Hnz]; cbn [negb];
    rewrite list_lookup_fmap, range_lookup by lia; cbn [fmap option_fmap option_map];
    rewrite Z2Nat.id by lia; f_equal.
  - rewrite Hz in Hgoal. rewrite <- Hgoal.
    replace (j + d - 0) with (j + 1 * d) by lia.
    rewrite Z.mod_add, Z.mod_small by lia.
    apply size_t_of_int. unfold INT_MAX in *. lia.
  - rewrite cmod_nonneg by (unfold INT_MIN in *; lia).
    rewrite Hgoal.
    rewrite int_of_fits by int_bounds.
    apply size_t_of_int. unfold INT_MAX in *. lia.
Qed.

(** ** Loops that fill a vector slot by slot *)

Lemma insert_take_drop {A} (target init : list A) (i : nat) v :
  length init = length target ->
  target !! i = Some v ->
  <[i := v]> (take i target ++ drop i init) = take (S i) target ++ drop (S i) init.
Proof.
  intros Hlen Hv.
  pose proof (lookup_lt_Some _ _ _ Hv) as Hi.
  destruct (lookup_lt_is_Some_2 init i) as [x Hx]; [lia|].
  rewrite (drop_S _ _ _ Hx).
  rewrite insert_app_r_alt by (rewrite length_take; lia).
  rewrite length_take, Nat.min_l, Nat.sub_diag by lia. simpl.
  rewrite (take_S_r _ _ _ Hv), <- app_assoc. done.
Qed.

Lemma for_each_overwrite {A} (body : list A -> Z -> result (list A))
    (init target : list A) :
  length init = length target ->
  (forall (i : nat) v, target !! i = Some v ->
     body (take i target ++ drop i init) (Z.of_nat i)
     = Ok (<[i := v]> (take i target ++ drop i init))) ->
  for_each body (range (Z.of_nat (length target))) init = Ok target.
Proof.
  intros Hlen Hbody.
  destruct (for_each_range_inv
    (fun i sh => sh = take i target ++ drop i init) body (length target) init)
    as (s' & Hs' & HP).
  - by rewrite take_0, drop_0.
  - intros i s Hi ->.
    destruct (lookup_lt_is_Some_2 target i Hi) as [v Hv].
    eexists. split; [by apply Hbody|].
    by apply insert_take_drop.
  - rewrite Hs'. f_equal. rewrite HP.
    rewrite take_ge, drop_ge by lia. by rewrite app_nil_r.
Qed.

Lemma lookup_take_drop_ge {A} (target init : list A) (i k : nat) :
  length init = length target -> (i <= k)%nat ->
  (take i target ++ drop i init) !! k = init !! k.
Proof.
  intros Hlen Hik.
  destruct (decide (i <= length target)%nat) as [Hi|Hi].
  - rewrite lookup_app_r by (rewrite length_take; lia).
    rewrite length_take, Nat.min_l by lia.
    rewrite lookup_drop. f_equal. lia.
  - rewrite take_ge, drop_ge by lia. rewrite app_nil_r.
    rewrite !lookup_ge_None_2; [done | lia | lia].
Qed.

Lemma length_take_drop {A} (target init : list A) (i : nat) :
  length init = length target ->
  length (take i target ++ drop i init) = length target.
Proof.
  intros Hlen. rewrite length_app, length_take, length_drop. lia.
Qed.

(** The legal-range loop applies [legal_shift] to every axis. *)
Lemma roll_legal_shifts_Ok shape shifts :
  length shifts = length shape ->
  roll_legal_shifts shape shifts = Ok (zip_with legal_shift shifts shape).
Proof.
  intros Hlen. unfold roll_legal_shifts, ndim.
  assert (Hl : length (zip_with legal_shift shifts shape) = length shape)
    by (rewrite length_zip_with; lia).
  rewrite <- Hl. apply for_each_overwrite; [lia|].
  intros i v Hv.
  apply lookup_zip_with_Some in Hv as (s & d & -> & Hs & Hd).
  assert (Hcur : (take i (zip_with legal_shift shifts shape) ++ drop i shifts) !! i
                 = Some s) by (rewrite lookup_take_drop_ge by lia; done).
  rewrite (vec_at_nat _ _ _ Hcur). cbn [mbind result_bind].
  rewrite (vec_at_nat _ _ _ Hd). cbn [mbind result_bind].
  apply vec_set_nat. rewrite length_take_drop by lia.
  rewrite Hl. by eapply lookup_lt_Some.
Qed.

(** The loop that fills [new_axes] and [value]: one row per axis, and
    [value[k]] the product of the last [k] dimension sizes. *)
Lemma roll_new_axes_Ok ds shifts :
  length shifts = length ds ->
  Forall (fun d => 0 < d) ds ->
  Size ds <= INT_MAX ->
  roll_new_axes ds shifts
  = Ok (zip_with roll_axis_row ds shifts,
        map (fun k : nat => Size (drop (length ds - k) ds)) (seq 0 (length ds)),
        Size ds).
Proof.
  intros Hlen Hpos Hmax. unfold roll_new_axes, ndim.
  set (n := length ds).
  set (rows := zip_with roll_axis_row ds shifts).
  set (vals := map (fun k : nat => Size (drop (n - k) ds)) (seq 0 n)).
  assert (Hvals : length vals = n) by (unfold vals; by rewrite length_map, length_seq).
  assert (Hrows : length rows = n) by (unfold rows; rewrite length_zip_with; lia).
  match goal with
  | |- for_each ?body _ ?s0 = _ =>
      destruct (for_each_range_inv
        (fun i (st : list (list Z) * list Z * Z) =>
           st = (take i rows, take i vals ++ drop i (replicate n 0),
                 Size (drop (n - i) ds)))
        body n s0) as (st' & Hst' & HP)
  end.
  - rewrite !take_0, drop_0, Nat.sub_0_r. unfold n. rewrite drop_all. done.
  - intros i st Hi ->.
    destruct (lookup_lt_is_Some_2 shifts i) as [s Hs]; [lia|].
    destruct (lookup_lt_is_Some_2 ds i) as [d Hd]; [done|].
    destruct (lookup_lt_is_Some_2 ds (n - 1 - i)) as [dl Hdl]; [unfold n in *; lia|].
    assert (Hv : vals !! i = Some (Size (drop (n - i) ds))).
    { unfold vals. rewrite list_lookup_fmap, lookup_seq_lt by done. done. }
    assert (Hr : rows !! i = Some (roll_axis_row d s)).
    { unfold rows. rewrite lookup_zip_with, Hd. simpl. by rewrite Hs. }
    pose proof (Size_drop_le ds (n - i) Hpos) as Hle1.
    pose proof (Size_drop_le ds (n - S i) Hpos) as Hle2.
    assert (0 < Size (drop (n - i) ds)) by (apply Size_pos, Forall_drop, Hpos).
    assert (0 < Size (drop (n - S i) ds)) by (apply Size_pos, Forall_drop, Hpos).
    assert (Hnext : Size (drop (n - S i) ds) = Size (drop (n - i) ds) * dl).
    { replace (n - S i)%nat with (n - 1 - i)%nat by lia.
      rewrite (drop_S _ _ _ Hdl), Size_cons.
      replace (S (n - 1 - i)) with (n - i)%nat by lia. lia. }
    eexists. split.
    + rewrite (vec_at_nat _ _ _ Hs). cbn [mbind result_bind].
      rewrite (vec_at_nat _ _ _ Hd). cbn [mbind result_bind].
      rewrite vec_set_nat
        by (rewrite length_take_drop; rewrite ?length_replicate; lia).
      cbn [mbind result_bind].
      replace (Z.of_nat n - 1 - Z.of_nat i) with (Z.of_nat (n - 1 - i)) by lia.
      rewrite (vec_at_nat _ _ _ Hdl). cbn [mbind result_bind].
      reflexivity.
    + rewrite size_t_of_int by lia.
      rewrite insert_take_drop by (rewrite ?length_replicate; done || lia).
      rewrite (take_S_r _ _ _ Hr).
      rewrite int_of_fits
        by (rewrite <- Hnext; int_bounds).
      by rewrite Hnext.
  - rewrite Hst', HP. do 2 f_equal.
    + f_equal. by rewrite take_ge by lia.
      rewrite take_ge, drop_ge by (rewrite ?length_replicate; lia).
      by rewrite app_nil_r.
    + by rewrite Nat.sub_diag, drop_0.
Qed.

Lemma dim_le_Size ds :
  Forall (fun d => 0 < d) ds -> Forall (fun d => d <= Size ds) ds.
Proof.
  induction 1 as [|d ds Hd Hds IH]; constructor.
  - rewrite Size_cons. pose proof (Size_pos ds Hds). nia.
  - eapply Forall_impl; [exact IH|]. intros d' Hd'. simpl in Hd'.
    rewrite Size_cons. pose proof (Size_pos ds Hds). nia.
Qed.

Lemma dims_fit ds :
  Forall (fun d => 0 < d) ds -> Size ds <= INT_MAX ->
  Forall (fun d => 0 < d <= INT_MAX) ds.
Proof.
  intros Hpos Hmax. pose proof (dim_le_Size ds Hpos) as Hle.
  rewrite Forall_forall in *. intros d Hd.
  specialize (Hpos d Hd). specialize (Hle d Hd). lia.
Qed.

Lemma roll_axis_row_range d s0 :
  fits_int s0 -> 0 < d <= INT_MAX ->
  Forall (fun a => 0 <= a < d) (roll_axis_row d (legal_shift s0 d)).
Proof.
  intros Hs Hd. apply Forall_lookup. intros k a Hk.
  pose proof (lookup_lt_Some _ _ _ Hk) as Hlt.
  rewrite roll_axis_row_length in Hlt.
  rewrite <- (Nat2Z.id k) in Hk.
  rewrite roll_axis_row_lookup in Hk by (done || lia).
  inversion Hk; subst. apply Z.mod_pos_bound. lia.
Qed.

(** The rows built for the axes: their lengths, their ranges, and the
    source index they hold for every destination index. *)
Lemma roll_rows_props ds shifts0 :
  length shifts0 = length ds ->
  Forall fits_int shifts0 ->
  Forall (fun d => 0 < d <= INT_MAX) ds ->
  let rows := zip_with roll_axis_row ds (zip_with legal_shift shifts0 ds) in
  Forall2 (fun row d => length row = Z.to_nat d) rows ds /\
  Forall2 (fun row d => Forall (fun a => 0 <= a < d) row) rows ds /\
  (forall js, in_shape ds js -> pick rows js = roll_source ds shifts0 js).
Proof.
  revert shifts0. induction ds as [|d ds IH]; intros shifts0 Hlen Hfit Hds.
  - simpl. repeat split; constructor.
  - destruct shifts0 as [|s0 shifts0]; [discriminate|].
    inversion Hfit as [|? ? Hs Hfit']; subst.
    inversion Hds as [|? ? Hd Hds']; subst.
    destruct (IH shifts0) as (H1 & H2 & H3); [simpl in Hlen; lia|done|done|].
    cbn [zip_with]. repeat split.
    + constructor; [apply roll_axis_row_length | exact H1].
    + constructor; [by apply roll_axis_row_range | exact H2].
    + intros js Hjs. inversion Hjs as [|? j ? js' Hj Hjs']; subst.
      cbn [pick roll_source].
      rewrite roll_axis_row_lookup by done. cbn [default].
      f_equal. by apply H3.
Qed.

(** ** Validation of the axis list and assignment of the shifts *)

Lemma for_each_indexed {A S} (l : list A) (f : S -> A -> result S) (s : S) :
  for_each (fun s i => a ← vec_at l i; f s a) (range (Z.of_nat (length l))) s
  = for_each f l s.
Proof.
  unfold range. rewrite Nat2Z.id.
  assert (Hgen : forall l2 l1 s, l = l1 ++ l2 ->
    for_each (fun s i => a ← vec_at l i; f s a)
      (map Z.of_nat (seq (length l1) (length l2))) s = for_each f l2 s).
  { induction l2 as [|a l2 IH]; intros l1 s' Hl; [done|].
    simpl. rewrite (vec_at_nat _ _ a) by (subst l; apply list_lookup_middle; done).
    cbn [mbind result_bind]. destruct (f s' a) as [s''|e]; [|done].
    cbn [mbind result_bind].
    specialize (IH (l1 ++ [a]) s''). rewrite length_app in IH. simpl in IH.
    rewrite Nat.add_1_r in IH. apply IH. by rewrite <- app_assoc. }
  apply (Hgen l [] s). done.
Qed.

(** The validation loop accepts exactly the lists whose entries are all
    below [ndim] and whose first entry is not negative; it rejects the
    others with a failed check. *)
Lemma roll_check_axes_spec nd axes :
  roll_check_axes nd axes
  = if axes_accepted nd axes then Ok tt else Err CheckFailed.
Proof.
  unfold roll_check_axes, axes_accepted.
  rewrite (for_each_indexed axes
    (fun (_ : unit) a => CHECK (a <? nd);; a0 ← vec_at axes 0; CHECK (0 <=? a0)) tt).
  destruct axes as [|a0 axes']; [done|].
  change (vec_at (a0 :: axes') 0) with (Ok a0). cbn [hd mbind result_bind].
  generalize (a0 :: axes') as l.
  induction l as [|a l IH]; [done|].
  cbn [for_each forallb].
  destruct (a <? nd); cbn [CHECK mbind result_bind andb]; [|done].
  revert IH. destruct (0 <=? a0); intros IH; cbn [CHECK mbind result_bind]; [|done].
  exact IH.
Qed.

Lemma axes_accepted_valid nd axes :
  Forall (fun a => 0 <= a < nd) axes -> axes_accepted nd axes = true.
Proof.
  intros H. unfold axes_accepted. apply forallb_forall.
  intros a Ha. apply list_elem_of_In in Ha.
  rewrite Forall_forall in H. pose proof (H a Ha).
  assert (0 <= hd 0 axes).
  { destruct axes as [|a0 axes']; [simpl; lia|].
    simpl. apply (H a0), list_elem_of_here. }
  apply andb_true_iff. split; [apply Z.ltb_lt | apply Z.leb_le]; lia.
Qed.

Lemma assign_pairs_length pairs shifts :
  length (assign_pairs pairs shifts) = length shifts.
Proof.
  unfold assign_pairs. revert shifts.
  induction pairs as [|p pairs IH]; intros shifts; simpl; [done|].
  by rewrite IH, length_insert.
Qed.

Lemma assign_pairs_snoc pairs p shifts :
  assign_pairs (pairs ++ [p]) shifts
  = <[Z.to_nat (fst p) := int_of (snd p)]> (assign_pairs pairs shifts).
Proof. unfold assign_pairs. by rewrite fold_left_app. Qed.

Lemma assign_loop axes (get : Z -> result Z) vals shifts :
  length vals = length axes ->
  (forall (i : nat) v, vals !! i = Some v -> get (Z.of_nat i) = Ok v) ->
  Forall (fun a => 0 <= a < Z.of_nat (length shifts)) axes ->
  for_each (fun sh i => a ← vec_at axes i; s ← get i; vec_set sh a (int_of s))
    (range (Z.of_nat (length axes))) shifts
  = Ok (assign_pairs (zip axes vals) shifts).
Proof.
  intros Hlen Hget Hvalid.
  match goal with
  | |- for_each ?body _ ?s0 = _ =>
      destruct (for_each_range_inv
        (fun i sh => sh = assign_pairs (take i (zip axes vals)) shifts)
        body (length axes) s0) as (s' & Hs' & HP)
  end.
  - by rewrite take_0.
  - intros i sh Hi ->.
    destruct (lookup_lt_is_Some_2 axes i Hi) as [a Ha].
    destruct (lookup_lt_is_Some_2 vals i) as [v Hv]; [lia|].
    rewrite Forall_lookup in Hvalid. pose proof (Hvalid i a Ha) as Hrange.
    eexists. split.
    + rewrite (vec_at_nat _ _ _ Ha). cbn [mbind result_bind].
      rewrite (Hget i v Hv). cbn [mbind result_bind].
      apply vec_set_Ok. by rewrite assign_pairs_length.
    + assert (Hz : zip axes vals !! i = Some (a, v))
        by (apply lookup_zip_with_Some; eauto).
      by rewrite (take_S_r _ _ _ Hz), assign_pairs_snoc.
  - rewrite Hs', HP. rewrite take_ge; [done|].
    rewrite length_zip_with. lia.
Qed.

Lemma roll_assign_shifts_broadcast axes s shifts :
  Forall (fun a => 0 <= a < Z.of_nat (length shifts)) axes ->
  roll_assign_shifts axes [s] shifts
  = Ok (assign_pairs (zip axes (replicate (length axes) s)) shifts).
Proof.
  intros Hvalid. unfold roll_assign_shifts. cbn [length Z.of_nat Z.eqb Pos.of_succ_nat Pos.eqb].
  apply (assign_loop axes (fun _ => vec_at [s] 0)); [|  |done].
  - by rewrite length_replicate.
  - intros i v Hv. apply lookup_replicate in Hv as [-> _]. reflexivity.
Qed.

Lemma roll_assign_shifts_matched axes shift_v shifts :
  length shift_v <> 1%nat ->
  length shift_v = length axes ->
  Forall (fun a => 0 <= a < Z.of_nat (length shifts)) axes ->
  roll_assign_shifts axes shift_v shifts
  = Ok (assign_pairs (zip axes shift_v) shifts).
Proof.
  intros Hne Hlen Hvalid. unfold roll_assign_shifts.
  destruct (Z.eqb_spec (Z.of_nat (length shift_v)) 1); [lia|].
  destruct (Z.eqb_spec (Z.of_nat (length shift_v)) (Z.of_nat (length axes))); [|lia].
  cbn [CHECK mbind result_bind].
  apply (assign_loop axes (vec_at shift_v)); [done| |done].
  intros i v Hv. by apply vec_at_nat.
Qed.


Lemma int_of_range z : fits_int (int_of z).
Proof.
  unfold fits_int, INT_MIN, INT_MAX, int_of.
  pose proof (Z.mod_pos_bound (z + 2 ^ 31) (2 ^ 32)). lia.
Qed.

Lemma assign_pairs_fits pairs shifts :
  Forall fits_int shifts -> Forall fits_int (assign_pairs pairs shifts).
Proof.
  unfold assign_pairs. revert shifts.
  induction pairs as [|p pairs IH]; intros shifts H; simpl; [done|].
  apply IH. apply Forall_insert; [done | apply int_of_range].
Qed.

Lemma per_axis_shifts_length nd axes shift_v :
  length (per_axis_shifts nd axes shift_v) = nd.
Proof. unfold per_axis_shifts. by rewrite assign_pairs_length, length_replicate. Qed.

Lemma per_axis_shifts_fits nd axes shift_v :
  Forall fits_int (per_axis_shifts nd axes shift_v).
Proof.
  apply assign_pairs_fits, Forall_replicate.
  unfold fits_int, INT_MIN, INT_MAX. lia.
Qed.

Lemma roll_normalize_axes_valid nd axis_v :
  Forall (fun a => - nd <= a < nd) axis_v ->
  Forall (fun a => 0 <= a < nd) (roll_normalize_axes nd axis_v).
Proof.
  intros H. unfold roll_normalize_axes. apply Forall_fmap.
  eapply Forall_impl; [exact H|]. intros a Ha. simpl in *.
  destruct (Z.ltb_spec a 0); lia.
Qed.

(** With accepted axes and a shift list of length 1 or of the length of
    the axis list, the assignment loops run to their end. *)
Lemma roll_assign_shifts_Ok axes shift_v shifts :
  Forall (fun a => 0 <= a < Z.of_nat (length shifts)) axes ->
  length shift_v = 1%nat \/ length shift_v = length axes ->
  roll_assign_shifts axes shift_v shifts
  = Ok (assign_pairs (shift_pairs axes shift_v) shifts).
Proof.
  intros Hvalid Hlen. unfold shift_pairs.
  destruct (decide (length shift_v = 1%nat)) as [H1|H1].
  - destruct shift_v as [|s [|? ?]]; try discriminate.
    by apply roll_assign_shifts_broadcast.
  - destruct Hlen as [?|Hlen]; [done|].
    by apply roll_assign_shifts_matched.
Qed.

(** The table of the per-axis mode, given the shifts vector the
    assignment loops produce. *)
Lemma roll_new_index_dfs shape axis_v shift_v :
  shape <> [] ->
  Forall (fun d => 0 < d) shape ->
  Size shape <= INT_MAX ->
  Forall (fun a => - ndim shape <= a < ndim shape) axis_v ->
  length shift_v = 1%nat \/ length shift_v = length axis_v ->
  roll_new_index shape axis_v (Some shift_v)
  = Ok (dfs_table
          (zip_with roll_axis_row shape
             (zip_with legal_shift
                (per_axis_shifts (length shape)
                   (roll_normalize_axes (ndim shape) axis_v) shift_v) shape))
          shape 0).
Proof.
  intros Hne Hpos Hmax Haxes Hlen.
  pose proof (roll_normalize_axes_valid _ _ Haxes) as Hvalid.
  set (axes' := roll_normalize_axes (ndim shape) axis_v) in *.
  set (shifts0 := per_axis_shifts (length shape) axes' shift_v).
  pose proof (per_axis_shifts_length (length shape) axes' shift_v) as Hl0.
  pose proof (per_axis_shifts_fits (length shape) axes' shift_v) as Hf0.
  fold shifts0 in Hl0, Hf0.
  pose proof (dims_fit shape Hpos Hmax) as Hdims.
  destruct (roll_rows_props shape shifts0 Hl0 Hf0 Hdims) as (Hr1 & Hr2 & _).
  unfold roll_new_index, roll_index_of_shifts. fold axes'.
  rewrite roll_check_axes_spec, axes_accepted_valid by done.
  cbn [mbind result_bind optional_value].
  rewrite roll_assign_shifts_Ok;
    [| by rewrite length_replicate
     | unfold axes', roll_normalize_axes; by rewrite length_map].
  cbn [mbind result_bind]. fold (per_axis_shifts (length shape) axes' shift_v).
  fold shifts0.
  rewrite roll_legal_shifts_Ok by done. cbn [mbind result_bind].
  rewrite roll_new_axes_Ok by (rewrite ?length_zip_with; done || lia).
  cbn [mbind result_bind].
  change 0 with (Z.of_nat 0) at 1.
  rewrite (RollDfs_table _ _ _ shape 0 0 []).
  - by rewrite !drop_0.
  - repeat split; [rewrite !length_zip_with; lia
                  | by rewrite length_map, length_seq | | done | done].
    intros k Hk. rewrite list_lookup_fmap, lookup_seq_lt by lia.
    simpl. do 3 f_equal. lia.
  - destruct shape; [done | simpl; lia].
  - lia.
  - lia.
  - rewrite drop_0. lia.
Qed.

(** ** Kernels on the memory *)

Section Kernels.

Context {DType : Type} (dadd : DType -> DType -> DType).

Implicit Types (st : gmap nat (list DType)) (inb outb : list DType).

Lemma for_eachM_range_inv (P : nat -> gmap nat (list DType) -> Prop)
    (body : Z -> M unit) (n : nat) st0 :
  P 0%nat st0 ->
  (forall i st, (i < n)%nat -> P i st ->
     exists st', body (Z.of_nat i) st = (Ok tt, st') /\ P (S i) st') ->
  exists st', for_eachM body (range (Z.of_nat n)) st0 = (Ok tt, st') /\ P n st'.
Proof.
  intros H0 Hstep. unfold range. rewrite Nat2Z.id.
  assert (Hgen : forall len a st, (a + len = n)%nat -> P a st ->
    exists st', for_eachM body (map Z.of_nat (seq a len)) st = (Ok tt, st') /\ P n st').
  { induction len as [|len IH]; intros a st Hlen Ha; simpl.
    - replace n with a by lia. eauto.
    - destruct (Hstep a st) as (st1 & Hb & HP); [lia | done |].
      unfold mbind, M_bind. rewrite Hb. apply IH; [lia | done]. }
  apply (Hgen n 0%nat st0); [lia | done].
Qed.

Lemma gather_length req inb outb src :
  length (gather dadd req inb outb src) = length outb.
Proof. unfold gather. apply length_imap. Qed.

Lemma gather_lookup req inb outb src (i : nat) old v :
  outb !! i = Some old -> inb !! src i = Some v ->
  gather dadd req inb outb src !! i = Some (assign_value dadd req old v).
Proof.
  intros Ho Hv. unfold gather. rewrite list_lookup_imap, Ho. simpl.
  by rewrite Hv.
Qed.

Lemma gather_kNullOp inb outb src : gather dadd kNullOp inb outb src = outb.
Proof.
  unfold gather. apply list_eq. intros i.
  rewrite list_lookup_imap. destruct (outb !! i) as [old|]; simpl; [|done].
  by destruct (inb !! src i).
Qed.

(** One assignment of the kernel: element [i] of the output buffer gets
    the value, under the write policy; nothing else changes. *)
Lemma KERNEL_ASSIGN_step req (val : M DType) p (i : nat) ob old v st :
  st !! p = Some ob -> ob !! i = Some old ->
  val st = (Ok v, st) ->
  KERNEL_ASSIGN dadd p (Z.of_nat i) req val st
  = (Ok tt, <[p := <[i := assign_value dadd req old v]> ob]> st).
Proof.
  intros Hp Hi Hval.
  pose proof (lookup_lt_Some _ _ _ Hi) as Hlt.
  assert (Hw : forall w, write_at p (Z.of_nat i) w st
                         = (Ok tt, <[p := <[i := w]> ob]> st)).
  { intros w. unfold write_at. rewrite Hp. by rewrite vec_set_nat. }
  destruct req; unfold KERNEL_ASSIGN, mbind, M_bind, mret, M_ret; simpl.
  - rewrite list_insert_id by done. by rewrite insert_id.
  - rewrite Hval. apply Hw.
  - rewrite Hval. apply Hw.
  - rewrite Hval. unfold read_at at 1. rewrite Hp.
    rewrite (vec_at_nat _ _ _ Hi). apply Hw.
Qed.

(** A launch of a gather kernel fills the output buffer with [gather]. *)
Lemma Launch_gather req (Map : Z -> M unit) (val : nat -> M DType)
    (src : nat -> nat) (pin pout : nat) inb outb st :
  pin <> pout ->
  st !! pin = Some inb ->
  st !! pout = Some outb ->
  (forall (i : nat) st', (i < length outb)%nat ->
     Map (Z.of_nat i) st' = KERNEL_ASSIGN dadd pout (Z.of_nat i) req (val i) st') ->
  (forall (i : nat) st', (i < length outb)%nat -> st' !! pin = Some inb ->
     exists v, inb !! src i = Some v /\ val i st' = (Ok v, st')) ->
  Launch (Z.of_nat (length outb)) Map st
  = (Ok tt, <[pout := gather dadd req inb outb src]> st).
Proof.
  intros Hne Hin Hout HMap Hval. unfold Launch.
  set (G := gather dadd req inb outb src).
  assert (HG : length outb = length G) by (unfold G; by rewrite gather_length).
  destruct (for_eachM_range_inv
    (fun i st' => st' = <[pout := take i G ++ drop i outb]> st)
    Map (length outb) st) as (st' & Hst' & HP).
  - rewrite take_0, drop_0. simpl. by rewrite insert_id.
  - intros i st1 Hi ->.
    destruct (lookup_lt_is_Some_2 outb i Hi) as [old Hold].
    destruct (Hval i (<[pout := take i G ++ drop i outb]> st) Hi)
      as (v & Hv & Hvi); [by rewrite lookup_insert_ne|].
    eexists. split.
    + rewrite HMap by done.
      apply (KERNEL_ASSIGN_step _ _ _ _ (take i G ++ drop i outb) old v).
      * by rewrite lookup_insert_eq.
      * by rewrite lookup_take_drop_ge.
      * exact Hvi.
    + rewrite insert_insert_eq. f_equal.
      apply insert_take_drop; [done|].
      unfold G. by apply gather_lookup.
  - rewrite Hst', HP. do 2 f_equal.
    rewrite take_ge, drop_ge by lia. by rewrite app_nil_r.
Qed.

End Kernels.

(** ** The flatten mode *)

Lemma roll_flat_shift_mod s n :
  fits_int s -> 0 < n <= INT_MAX ->
  roll_flat_shift s n = s mod n.
Proof.
  intros Hs Hn. unfold roll_flat_shift.
  rewrite (int_of_fits s) by done.
  pose proof (cmod_bounds s n) as Hb. pose proof (cmod_congr s n) as Hc.
  rewrite (int_of_fits (cmod s n))
    by int_bounds.
  destruct (Z.ltb_spec (cmod s n) 0) as [Hneg|Hnn].
  - rewrite size_t_of_int by (unfold INT_MAX in *; lia).
    rewrite int_of_fits by int_bounds.
    rewrite <- Hc by lia.
    rewrite <- (Z.mod_add (cmod s n) 1 n) by lia.
    rewrite Z.mul_1_l. symmetry. apply Z.mod_small. lia.
  - rewrite <- Hc by lia. symmetry. apply Z.mod_small. lia.
Qed.

Lemma roll_flat_index_mod i n sh :
  0 < n <= INT_MAX -> 0 <= i < n -> 0 <= sh < n ->
  roll_flat_index i n sh = (i - sh) mod n.
Proof.
  intros Hn Hi Hsh. unfold roll_flat_index.
  rewrite (int_of_fits (i - sh)) by int_bounds.
  destruct (Z.ltb_spec (i - sh) 0) as [Hneg|Hnn].
  - rewrite int_of_fits by int_bounds.
    rewrite <- (Z.mod_add (i - sh) 1 n) by lia.
    rewrite Z.mul_1_l. symmetry. apply Z.mod_small. lia.
  - symmetry. apply Z.mod_small. lia.
Qed.

(** The requested shift enters the computation as an [int] only. *)
Lemma int_of_idem z : int_of (int_of z) = int_of z.
Proof. apply int_of_fits, int_of_range. Qed.

Lemma roll_flat_shift_int s0 n : roll_flat_shift (int_of s0) n = roll_flat_shift s0 n.
Proof. unfold roll_flat_shift. by rewrite int_of_idem. Qed.

Lemma roll_flat_shift_bounds s0 n :
  0 < n <= INT_MAX ->
  0 <= roll_flat_shift s0 n < n /\ roll_flat_shift s0 n = int_of s0 mod n.
Proof.
  intros Hn. rewrite <- roll_flat_shift_int.
  rewrite roll_flat_shift_mod by (done || apply int_of_range).
  split; [apply Z.mod_pos_bound; lia | done].
Qed.

Section RollMemory.

Context {DType : Type} (dadd : DType -> DType -> DType).

Implicit Types (st : gmap nat (list DType)) (inb outb : list DType).


(** [MXNET_ASSIGN_REQ_SWITCH] around a launch of a gather kernel. *)
Lemma REQ_SWITCH_gather req (Map : OpReqType -> Z -> M unit)
    (val : nat -> M DType) (src : nat -> nat) (pin pout : nat) inb outb st N :
  N = Z.of_nat (length outb) ->
  pin <> pout ->
  st !! pin = Some inb ->
  st !! pout = Some outb ->
  (forall rq (i : nat) st', (i < length outb)%nat ->
     Map rq (Z.of_nat i) st' = KERNEL_ASSIGN dadd pout (Z.of_nat i) rq (val i) st') ->
  (forall (i : nat) st', (i < length outb)%nat -> st' !! pin = Some inb ->
     exists v, inb !! src i = Some v /\ val i st' = (Ok v, st')) ->
  MXNET_ASSIGN_REQ_SWITCH req (fun rq => Launch N (Map rq)) st
  = (Ok tt, <[pout := gather dadd (kernel_req req) inb outb src]> st).
Proof.
  intros -> Hne Hin Hout HMap Hval.
  destruct req; cbn [MXNET_ASSIGN_REQ_SWITCH kernel_req].
  - rewrite gather_kNullOp. by rewrite insert_id.
  - apply (Launch_gather dadd kWriteTo (Map kWriteTo) val src pin); auto.
  - apply (Launch_gather dadd kWriteTo (Map kWriteTo) val src pin); auto.
  - apply (Launch_gather dadd kAddTo (Map kAddTo) val src pin); auto.
Qed.

(** [NumpyRollCompute] on one input, one request and one output. *)
Lemma NumpyRollCompute_single param (x y : TBlob) req st :
  NumpyRollCompute dadd param [x] [req] [y] st
  = if (Size (shape_ x) =? 0) then (Ok tt, st)
    else match axis param with
         | None =>
             match shift param with
             | None => (Err BadOptionalAccess, st)
             | Some [] => (Err OutOfBounds, st)
             | Some (s0 :: _) =>
                 MXNET_ASSIGN_REQ_SWITCH req (fun req_type =>
                   Launch (Size (shape_ y)) (fun i =>
                     RollAxisNone_forward dadd req_type i (dptr_ y) (dptr_ x)
                       (Size (shape_ x))
                       (roll_flat_shift s0 (Size (shape_ x))))) st
             end
         | Some axis_v =>
             match roll_new_index (shape_ x) axis_v (shift param) with
             | Ok new_index =>
                 MXNET_ASSIGN_REQ_SWITCH req (fun req_type =>
                   Launch (Size (shape_ y)) (fun i =>
                     RollAxis_forward dadd req_type i (dptr_ y) (dptr_ x)
                       new_index)) st
             | Err e => (Err e, st)
             end
         end.
Proof.
  destruct param as [sh ax]. unfold NumpyRollCompute. cbn [axis shift].
  unfold mbind at 1 2 3 4, M_bind, lift. cbn [length Z.of_nat Pos.of_succ_nat Z.eqb Pos.eqb CHECK].
  change (vec_at [x] 0) with (Ok x). cbv beta iota.
  destruct (Size (shape_ x) =? 0); [reflexivity|].
  destruct ax as [axis_v|].
  - unfold mbind at 1, M_bind, lift.
    destruct (roll_new_index (shape_ x) axis_v sh); reflexivity.
  - destruct sh as [[|s0 rest]|]; reflexivity.
Qed.

(** The flatten mode, end to end. *)
Lemma NumpyRollCompute_flat (x y : TBlob) req s rest inb outb st :
  0 < Size (shape_ x) <= INT_MAX ->
  Size (shape_ y) = Size (shape_ x) ->
  fits_int s ->
  dptr_ x <> dptr_ y ->
  st !! dptr_ x = Some inb -> length inb = Z.to_nat (Size (shape_ x)) ->
  st !! dptr_ y = Some outb -> length outb = Z.to_nat (Size (shape_ x)) ->
  NumpyRollCompute dadd {| shift := Some (s :: rest); axis := None |} [x] [req] [y] st
  = (Ok tt,
     <[dptr_ y := gather dadd (kernel_req req) inb outb
         (fun i => Z.to_nat ((Z.of_nat i - s mod Size (shape_ x)) mod Size (shape_ x)))]> st).
Proof.
  intros Hn Hy Hs Hne Hin Hinl Hout Houtl.
  rewrite NumpyRollCompute_single. cbn [axis shift]. rewrite Hy.
  set (n := Size (shape_ x)) in *.
  pose proof (Z.mod_pos_bound s n) as Hsh.
  destruct (Z.eqb_spec n 0); [lia|].
  rewrite roll_flat_shift_mod by done.
  apply (REQ_SWITCH_gather req
    (fun rq i => RollAxisNone_forward dadd rq i (dptr_ y) (dptr_ x) n (s mod n))
    (fun i => read_at (dptr_ x) (roll_flat_index (Z.of_nat i) n (s mod n)))
    _ (dptr_ x) (dptr_ y) inb outb); try done.
  - lia.
  - intros rq i st' Hi. unfold RollAxisNone_forward.
    rewrite (int_of_fits (Z.of_nat i))
      by int_bounds.
    rewrite (int_of_fits n) by int_bounds.
    done.
  - intros i st' Hi Hin'.
    rewrite roll_flat_index_mod by lia.
    pose proof (Z.mod_pos_bound (Z.of_nat i - s mod n) n) as Hidx.
    destruct (lookup_lt_is_Some_2 inb
                (Z.to_nat ((Z.of_nat i - s mod n) mod n))) as [v Hv]; [lia|].
    exists v. split; [done|].
    unfold read_at. rewrite Hin'. f_equal.
    apply vec_at_Ok. split; [lia | done].
Qed.

End RollMemory.

(** ** The per-axis table, entry by entry *)

Lemma roll_source_in_shape shape shifts js :
  length shifts = length shape ->
  in_shape shape js -> in_shape shape (roll_source shape shifts js).
Proof.
  intros Hlen Hin. revert shifts Hlen.
  induction Hin as [|d j ds js Hj _ IH]; intros shifts Hlen.
  - constructor.
  - destruct shifts as [|s shifts]; [discriminate|].
    cbn [roll_source]. constructor.
    + apply Z.mod_pos_bound. lia.
    + apply IH. simpl in Hlen. lia.
Qed.

Lemma roll_new_index_entries shape axis_v shift_v :
  shape <> [] ->
  Forall (fun d => 0 < d) shape ->
  Size shape <= INT_MAX ->
  Forall (fun a => - ndim shape <= a < ndim shape) axis_v ->
  length shift_v = 1%nat \/ length shift_v = length axis_v ->
  exists table,
    roll_new_index shape axis_v (Some shift_v) = Ok table /\
    length table = Z.to_nat (Size shape) /\
    forall js, in_shape shape js ->
      table !! Z.to_nat (ravel shape js)
      = Some (ravel shape
                (roll_source shape
                   (per_axis_shifts (length shape)
                      (roll_normalize_axes (ndim shape) axis_v) shift_v) js)).
Proof.
  intros Hne Hpos Hmax Haxes Hlen.
  eexists. split; [by apply roll_new_index_dfs|].
  set (shifts0 := per_axis_shifts _ _ _).
  pose proof (per_axis_shifts_length (length shape)
                (roll_normalize_axes (ndim shape) axis_v) shift_v) as Hl0.
  pose proof (per_axis_shifts_fits (length shape)
                (roll_normalize_axes (ndim shape) axis_v) shift_v) as Hf0.
  fold shifts0 in Hl0, Hf0.
  destruct (roll_rows_props shape shifts0 Hl0 Hf0 (dims_fit shape Hpos Hmax))
    as (Hr1 & _ & Hr3).
  split.
  - by apply dfs_table_length.
  - intros js Hjs. rewrite dfs_table_lookup by done.
    rewrite Hr3 by done. f_equal.
Qed.

Section RollAxes.

Context {DType : Type} (dadd : DType -> DType -> DType).

Implicit Types (st : gmap nat (list DType)) (inb outb : list DType).

(** The per-axis mode, end to end: the output element at a linear offset
    is assigned the input element at the offset of the rolled multi-index. *)
Lemma NumpyRollCompute_axes (x y : TBlob) req axis_v shift_v inb outb st :
  shape_ x <> [] ->
  Forall (fun d => 0 < d) (shape_ x) ->
  Size (shape_ x) <= INT_MAX ->
  Size (shape_ y) = Size (shape_ x) ->
  Forall (fun a => - ndim (shape_ x) <= a < ndim (shape_ x)) axis_v ->
  length shift_v = 1%nat \/ length shift_v = length axis_v ->
  dptr_ x <> dptr_ y ->
  st !! dptr_ x = Some inb -> length inb = Z.to_nat (Size (shape_ x)) ->
  st !! dptr_ y = Some outb -> length outb = Z.to_nat (Size (shape_ x)) ->
  NumpyRollCompute dadd {| shift := Some shift_v; axis := Some axis_v |}
    [x] [req] [y] st
  = (Ok tt,
     <[dptr_ y := gather dadd (kernel_req req) inb outb
         (fun i => Z.to_nat (ravel (shape_ x)
            (roll_source (shape_ x)
               (per_axis_shifts (length (shape_ x))
                  (roll_normalize_axes (ndim (shape_ x)) axis_v) shift_v)
               (unravel (shape_ x) (Z.of_nat i)))))]> st).
Proof.
  intros Hne Hpos Hmax Hy Haxes Hlen Hp Hin Hinl Hout Houtl.
  pose proof (Size_pos _ Hpos) as Hn.
  rewrite NumpyRollCompute_single. cbn [axis shift]. rewrite Hy.
  destruct (Z.eqb_spec (Size (shape_ x)) 0); [lia|].
  destruct (roll_new_index_entries (shape_ x) axis_v shift_v)
    as (table & -> & Htl & Htab); try done.
  set (shifts0 := per_axis_shifts _ _ _) in *.
  assert (Hl0 : length shifts0 = length (shape_ x))
    by apply per_axis_shifts_length.
  apply (REQ_SWITCH_gather dadd req
    (fun rq i => RollAxis_forward dadd rq i (dptr_ y) (dptr_ x) table)
    (fun i => k ← lift (vec_at table (Z.of_nat i)); read_at (dptr_ x) k)
    _ (dptr_ x) (dptr_ y) inb outb); try done.
  - lia.
  - intros rq i st' Hi. unfold RollAxis_forward.
    rewrite (int_of_fits (Z.of_nat i))
      by int_bounds.
    done.
  - intros i st' Hi Hin'.
    assert (Hi' : 0 <= Z.of_nat i < Size (shape_ x)) by lia.
    pose proof (unravel_in_shape _ _ Hpos Hi') as Hjs.
    pose proof (Htab _ Hjs) as Hk.
    rewrite ravel_unravel, Nat2Z.id in Hk by done.
    pose proof (ravel_bounds _ _ (roll_source_in_shape _ shifts0 _ Hl0 Hjs)) as Hb.
    destruct (lookup_lt_is_Some_2 inb (Z.to_nat (ravel (shape_ x)
                (roll_source (shape_ x) shifts0
                   (unravel (shape_ x) (Z.of_nat i)))))) as [v Hv]; [lia|].
    exists v. split; [done|].
    unfold mbind, M_bind, lift. rewrite (vec_at_nat _ _ _ Hk).
    unfold read_at. rewrite Hin'. f_equal.
    apply vec_at_Ok. split; [lia | done].
Qed.


End RollAxes.

(** ** Which shift an axis ends up with *)

Lemma assign_pairs_cons p pairs shifts :
  assign_pairs (p :: pairs) shifts
  = assign_pairs pairs (<[Z.to_nat (fst p) := int_of (snd p)]> shifts).
Proof. reflexivity. Qed.

Lemma assign_pairs_lookup_other pairs shifts (k : nat) :
  Forall (fun p => Z.to_nat (fst p) <> k) pairs ->
  assign_pairs pairs shifts !! k = shifts !! k.
Proof.
  revert shifts. induction pairs as [|p pairs IH]; intros shifts H; [done|].
  inversion H as [|? ? Hp Hrest]; subst.
  rewrite assign_pairs_cons, IH by done.
  by apply list_lookup_insert_ne.
Qed.

Lemma not_named_later (pairs : list (Z * Z)) a :
  0 <= a ->
  Forall (fun p => 0 <= fst p) pairs ->
  a ∉ map fst pairs ->
  Forall (fun p => Z.to_nat (fst p) <> Z.to_nat a) pairs.
Proof.
  intros Ha Hnn Hnot. apply Forall_forall. intros p Hp.
  rewrite Forall_forall in Hnn. specialize (Hnn p Hp).
  intros Heq. apply Hnot. apply list_elem_of_fmap. exists p. split; [lia|done].
Qed.





Lemma shift_pairs_zip axes shift_v :
  length shift_v = length axes -> shift_pairs axes shift_v = zip axes shift_v.
Proof.
  intros Hlen. unfold shift_pairs. case_decide as H1; [|done].
  destruct shift_v as [|s [|? ?]]; try discriminate.
  destruct axes as [|a [|? ?]]; try discriminate. reflexivity.
Qed.


Lemma roll_normalize_axes_length nd l :
  length (roll_normalize_axes nd l) = length l.
Proof. unfold roll_normalize_axes. apply length_map. Qed.

(** With accepted axes and a legal shift-list length the table is built
    from the assigned shifts. *)
Lemma roll_new_index_valid shape axis_v shift_v :
  Forall (fun a => - ndim shape <= a < ndim shape) axis_v ->
  length shift_v = 1%nat \/ length shift_v = length axis_v ->
  roll_new_index shape axis_v (Some shift_v)
  = roll_index_of_shifts shape
      (per_axis_shifts (length shape)
         (roll_normalize_axes (ndim shape) axis_v) shift_v).
Proof.
  intros Haxes Hlen.
  pose proof (roll_normalize_axes_valid _ _ Haxes) as Hvalid.
  unfold roll_new_index.
  rewrite roll_check_axes_spec, axes_accepted_valid by done.
  cbn [mbind result_bind optional_value].
  rewrite roll_assign_shifts_Ok;
    [done | by rewrite length_replicate | by rewrite roll_normalize_axes_length].
Qed.


(** A shift below [-d] that [d] does not divide leaves the legal-range
    step negative. *)
Lemma legal_shift_stays_negative s d :
  fits_int s -> 0 < d <= INT_MAX -> s < - d -> s mod d <> 0 ->
  legal_shift s d = s + d /\ legal_shift s d < 0.
Proof.
  intros Hs Hd Hlow Hnz. rewrite legal_shift_unfold by done.
  pose proof (cmod_congr s d) as Hc.
  assert (Hneg : cmod s d < 0).
  { unfold cmod in *. pose proof (Z.rem_bound_pos_neg s d).
    destruct (Z.eq_dec (Z.rem s d) 0) as [E|E]; [|lia].
    rewrite E in Hc. rewrite Z.mod_0_l in Hc by lia. lia. }
  destruct (Z.ltb_spec (cmod s d) 0); lia.
Qed.

(** What the validation loop rejects, and what it lets through. *)
Lemma roll_axis_too_large_rejected nd axes a :
  a ∈ axes -> nd <= a -> roll_check_axes nd axes = Err CheckFailed.
Proof.
  intros Ha Hge. rewrite roll_check_axes_spec.
  destruct (axes_accepted nd axes) eqn:E; [|done].
  unfold axes_accepted in E. rewrite forallb_forall in E.
  apply list_elem_of_In in Ha. specialize (E a Ha).
  apply andb_true_iff in E as [E _]. apply Z.ltb_lt in E. lia.
Qed.

Lemma roll_first_axis_negative_rejected nd a0 rest :
  a0 < 0 -> roll_check_axes nd (a0 :: rest) = Err CheckFailed.
Proof.
  intros Hneg. rewrite roll_check_axes_spec.
  unfold axes_accepted. cbn [forallb hd].
  destruct (Z.leb_spec 0 a0); [lia|]. by rewrite andb_false_r.
Qed.

Lemma roll_later_axis_negative_accepted nd a0 rest :
  0 <= a0 < nd -> Forall (fun a => a < nd) rest ->
  roll_check_axes nd (a0 :: rest) = Ok tt.
Proof.
  intros Ha0 Hrest. rewrite roll_check_axes_spec.
  assert (E : axes_accepted nd (a0 :: rest) = true); [|by rewrite E].
  unfold axes_accepted. apply forallb_forall. intros a Ha. cbn [hd].
  apply andb_true_iff. split; [|apply Z.leb_le; lia].
  apply Z.ltb_lt. destruct Ha as [<-|Ha]; [lia|].
  rewrite Forall_forall in Hrest. apply Hrest. by apply list_elem_of_In.
Qed.

(** ** The recursion depth of [RollDfs] *)

Lemma for_each_no_error {A S} (bad : error) (body : S -> A -> result S) l s :
  (forall s a, a ∈ l -> body s a <> Err bad) ->
  for_each body l s <> Err bad.
Proof.
  revert s. induction l as [|a l IH]; intros s Hbody; [done|].
  simpl. destruct (body s a) as [s'|e] eqn:E; cbn [mbind result_bind].
  - apply IH. intros s1 a1 Ha1. apply Hbody. by apply list_elem_of_further.
  - intros Heq. apply (Hbody s a); [apply list_elem_of_here|]. congruence.
Qed.

(** The recursion goes one level down per axis, so a fuel above the number
    of axes still to visit is never used up. *)
Lemma RollDfs_fuel_enough fuel new_axes value out (index : nat) nd mid :
  (length new_axes - index < fuel)%nat ->
  RollDfs fuel new_axes value out (Z.of_nat index) nd mid <> Err OutOfFuel.
Proof.
  revert index mid out.
  induction fuel as [|fuel IH]; intros index mid out Hfuel; [lia|].
  cbn [RollDfs].
  destruct (vec_at new_axes (Z.of_nat index)) as [row|e] eqn:Hrow;
    cbn [mbind result_bind].
  2: { unfold vec_at in Hrow. destruct (Z.of_nat index <? 0); [congruence|].
       destruct (new_axes !! Z.to_nat (Z.of_nat index)); congruence. }
  apply vec_at_Ok in Hrow as [_ Hrow]. rewrite Nat2Z.id in Hrow.
  apply lookup_lt_Some in Hrow.
  match goal with
  | |- (for_each ?body ?l ?s ≫= _) <> _ =>
      pose proof (for_each_no_error OutOfFuel body l s) as Hloop;
      destruct (for_each body l s) as [st|e]; cbn [mbind result_bind]; [done|]
  end.
  intros Heq. apply Hloop; [|congruence].
  intros [mid' out'] a _.
  destruct (Z.of_nat index =? nd - 1); [done|].
  destruct (vec_at value (nd - 1 - Z.of_nat index)) as [v|e'] eqn:Hv;
    cbn [mbind result_bind].
  2: { unfold vec_at in Hv. destruct (nd - 1 - Z.of_nat index <? 0); [congruence|].
       destruct (value !! Z.to_nat (nd - 1 - Z.of_nat index)); congruence. }
  replace (Z.of_nat index + 1) with (Z.of_nat (S index)) by lia.
  match goal with
  | |- (RollDfs fuel ?na ?va ?o ?i ?n ?m ≫= _) <> _ =>
      pose proof (IH (S index) m o) as Hrec;
      destruct (RollDfs fuel na va o i n m) as [o'|e']; cbn [mbind result_bind];
        [done|]
  end.
  intros Heq'. apply Hrec; [lia | congruence].
Qed.

Lemma vec_at_error {A} (v : list A) i e : vec_at v i = Err e -> e = OutOfBounds.
Proof.
  unfold vec_at. destruct (i <? 0); [congruence|].
  destruct (v !! Z.to_nat i); congruence.
Qed.

Lemma vec_set_error {A} (v : list A) i x e :
  vec_set v i x = Err e -> e = OutOfBounds.
Proof.
  unfold vec_set. destruct (i <? 0); [congruence|].
  destruct (Z.to_nat i <? length v)%nat; congruence.
Qed.

Lemma for_each_Ok_count {A S} (P : S -> nat -> Prop) (body : S -> A -> result S)
    l s s' :
  for_each body l s = Ok s' ->
  P s 0%nat ->
  (forall s a s1 k, body s a = Ok s1 -> P s k -> P s1 (Datatypes.S k)) ->
  P s' (length l).
Proof.
  intros Hrun H0 Hstep.
  assert (Hgen : forall l s k, for_each body l s = Ok s' -> P s k ->
                   P s' (k + length l)%nat).
  { clear Hrun H0 l s. induction l as [|a l IH]; intros s k Hrun Hk; simpl in *.
    - inversion Hrun; subst. by rewrite Nat.add_0_r.
    - destruct (body s a) as [s1|e] eqn:E; [|done]. cbn [mbind result_bind] in Hrun.
      replace (k + Datatypes.S (length l))%nat
        with (Datatypes.S k + length l)%nat by lia.
      apply (IH s1); [done|]. by apply (Hstep s a). }
  apply (Hgen l s 0%nat); done.
Qed.

Lemma roll_new_axes_rows shape shifts new_axes value mid_val :
  roll_new_axes shape shifts = Ok (new_axes, value, mid_val) ->
  length new_axes = length shape.
Proof.
  intros Hrun. unfold roll_new_axes in Hrun.
  pose proof (for_each_Ok_count
    (fun (st : list (list Z) * list Z * Z) k => length (fst (fst st)) = k)
    _ _ _ _ Hrun) as H.
  cbn [fst] in H. rewrite range_length in H. unfold ndim in H.
  rewrite Nat2Z.id in H. apply H; [done|].
  intros [[na va] mv] i [[na1 va1] mv1] k Hbody Hk. cbn [fst] in *.
  destruct (vec_at shifts i); [|done]. cbn [mbind result_bind] in Hbody.
  destruct (vec_at shape i); [|done]. cbn [mbind result_bind] in Hbody.
  destruct (vec_set va i (size_t_of mv)); [|done]. cbn [mbind result_bind] in Hbody.
  destruct (vec_at shape (_ - 1 - i)); [|done].
  cbn [mbind result_bind] in Hbody.
  inversion Hbody; subst. rewrite length_app. simpl. lia.
Qed.

(** The table construction never stops for lack of fuel. *)
Lemma roll_index_of_shifts_fuel shape shifts :
  roll_index_of_shifts shape shifts <> Err OutOfFuel.
Proof.
  unfold roll_index_of_shifts.
  destruct (roll_legal_shifts shape shifts) as [sh|e] eqn:Hlegal;
    cbn [mbind result_bind].
  2: { intros Heq. inversion Heq; subst e.
       revert Hlegal. apply for_each_no_error. intros s i _.
       destruct (vec_at s i) as [?|e1] eqn:E1; cbn [mbind result_bind];
         [|intros H; inversion H; subst; by apply vec_at_error in E1].
       destruct (vec_at shape i) as [?|e2] eqn:E2; cbn [mbind result_bind];
         [|intros H; inversion H; subst; by apply vec_at_error in E2].
       intros H. by apply vec_set_error in H. }
  destruct (roll_new_axes shape sh) as [[[na va] mv]|e] eqn:Haxes;
    cbn [mbind result_bind].
  2: { intros Heq. inversion Heq; subst e.
       revert Haxes. apply for_each_no_error. intros [[na va] mv] i _.
       destruct (vec_at sh i) as [?|e1] eqn:E1; cbn [mbind result_bind];
         [|intros H; inversion H; subst; by apply vec_at_error in E1].
       destruct (vec_at shape i) as [?|e2] eqn:E2; cbn [mbind result_bind];
         [|intros H; inversion H; subst; by apply vec_at_error in E2].
       destruct (vec_set va i (size_t_of mv)) as [?|e3] eqn:E3;
         cbn [mbind result_bind];
         [|intros H; inversion H; subst; by apply vec_set_error in E3].
       destruct (vec_at shape (ndim shape - 1 - i)) as [?|e4] eqn:E4;
         cbn [mbind result_bind];
         [intros H; cbv zeta in H; discriminate
         |intros H; inversion H; subst; by apply vec_at_error in E4]. }
  apply roll_new_axes_rows in Haxes.
  change 0 with (Z.of_nat 0) at 1.
  apply RollDfs_fuel_enough. lia.
Qed.

(** An axis at or above the rank, at any position, stops the call with a
    failed check and the memory unchanged. *)
Lemma NumpyRollCompute_axis_too_large {DType : Type}
    (dadd : DType -> DType -> DType) (x y : TBlob) req axis_v shift_o a
    (st : gmap nat (list DType)) :
  Size (shape_ x) <> 0 ->
  a ∈ roll_normalize_axes (ndim (shape_ x)) axis_v ->
  ndim (shape_ x) <= a ->
  NumpyRollCompute dadd {| shift := shift_o; axis := Some axis_v |} [x] [req] [y] st
  = (Err CheckFailed, st).
Proof.
  intros Hsize Ha Hge. rewrite NumpyRollCompute_single. cbn [axis shift].
  destruct (Z.eqb_spec (Size (shape_ x)) 0); [done|].
  unfold roll_new_index.
  by rewrite (roll_axis_too_large_rejected _ _ a).
Qed.

(** * The claims on roll *)




(** C2.  The legal-range step on the input shape (3,), axis (0,),
    shift (-7,): the shifts vector holds -7 before the step and -4 after
    it, which is outside [0, 3) and is not the floor-mod 2. *)
Theorem legal_range_step_leaves_negative :
  roll_assign_shifts (roll_normalize_axes 1 [0]) [-7] [0] = Ok [-7] /\
  roll_legal_shifts [3] [-7] = Ok [-4] /\
  (-7) mod 3 = 2.
Proof. repeat split; vm_compute; reflexivity. Qed.

(** C3.  The validation loop on rank 2 and axis list (0, -5): the
    normalized list is (0, -3), the loop accepts it, and the call runs into
    the write [shifts[-3]] instead of failing a check. *)
Theorem axis_check_accepts_negative_entry :
  roll_normalize_axes 2 [0; -5] = [0; -3] /\
  roll_check_axes 2 [0; -3] = Ok tt /\
  NumpyRollCompute Z.add {| shift := Some [1]; axis := Some [0; -5] |}
    [ex_in] [kWriteTo] [ex_out] ex_store
  = (Err OutOfBounds, ex_store).
Proof. repeat split; vm_compute; reflexivity. Qed.




(** C6.  Roll of an empty input.  With one input, one request and one
    output, an input of element count 0 makes the call return successfully
    with the memory unchanged, whatever the shift and axis lists are. *)
Theorem roll_zero_size_noop {DType : Type} (dadd : DType -> DType -> DType)
    (param : NumpyRollParam) (x y : TBlob) (req : OpReqType)
    (st : gmap nat (list DType)) :
  Size (shape_ x) = 0 ->
  NumpyRollCompute dadd param [x] [req] [y] st = (Ok tt, st).
Proof.
  intros H0. rewrite NumpyRollCompute_single. by rewrite H0.
Qed.

Lemma roll_zero_size_noop_witness :
  Size [0; 3] = 0 /\
  NumpyRollCompute Z.add {| shift := Some [1; 2]; axis := Some [7; 0; -9] |}
    [{| shape_ := [0; 3]; dptr_ := 1 |}] [kWriteTo]
    [{| shape_ := [0; 3]; dptr_ := 2 |}] ex_store
  = (Ok tt, ex_store).
Proof.
  split; [reflexivity|].
  apply (roll_zero_size_noop Z.add). reflexivity.
Defined.

Lemma zip_axes_valid (axes shift_v : list Z) (n : Z) :
  Forall (fun a => 0 <= a < n) axes ->
  Forall (fun p : Z * Z => 0 <= fst p < n) (zip axes shift_v).
Proof.
  intros H. apply Forall_forall. intros [a s] Hp.
  apply elem_of_zip_l in Hp. rewrite Forall_forall in H. by apply H.
Qed.











(** * Transpose *)

Lemma Size_reverse ds : Size (reverse ds) = Size ds.
Proof.
  induction ds as [|d ds IH]; [done|].
  rewrite reverse_cons, Size_app, IH, !Size_cons.
  change (Size []) with 1. lia.
Qed.

Lemma in_shape_reverse ds js : in_shape ds js -> in_shape (reverse ds) (reverse js).
Proof. apply Forall2_reverse. Qed.

Lemma dims_positive ds :
  Forall (fun d => 0 <= d) ds -> 0 < Size ds -> Forall (fun d => 0 < d) ds.
Proof.
  induction 1 as [|d ds Hd Hds IH]; intros HS; constructor.
  - rewrite Size_cons in HS. pose proof (Size_nonneg ds Hds). nia.
  - apply IH. rewrite Size_cons in HS. pose proof (Size_nonneg ds Hds). nia.
Qed.

(** The default axes are the reversal [n-1, ..., 0]. *)
Lemma transpose_default_axes_Ok (n : nat) :
  transpose_default_axes (Z.of_nat n)
  = Ok (map (fun i : nat => Z.of_nat n - 1 - Z.of_nat i) (seq 0 n)).
Proof.
  unfold transpose_default_axes, TShape_fill, ndim.
  rewrite Nat2Z.id, length_replicate.
  set (target := map (fun i : nat => Z.of_nat n - 1 - Z.of_nat i) (seq 0 n)).
  assert (Hl : length target = n) by (unfold target; by rewrite length_map, length_seq).
  rewrite <- Hl at 1. apply for_each_overwrite.
  - by rewrite length_replicate.
  - intros i v Hv.
    pose proof (lookup_lt_Some _ _ _ Hv) as Hi. rewrite Hl in Hi.
    unfold target in Hv. rewrite list_lookup_fmap, lookup_seq_lt in Hv by done.
    inversion Hv; subst v.
    rewrite length_take_drop by (by rewrite length_replicate).
    rewrite Hl. apply vec_set_nat.
    rewrite length_take_drop by (by rewrite length_replicate). lia.
Qed.

Lemma default_axes_lookup (n i : nat) :
  (i < n)%nat ->
  map (fun i : nat => Z.of_nat n - 1 - Z.of_nat i) (seq 0 n) !! i
  = Some (Z.of_nat n - 1 - Z.of_nat i).
Proof.
  intros Hi. rewrite list_lookup_fmap, lookup_seq_lt by done. done.
Qed.

(** Under the reversal, the source multi-index is the reversed one. *)
Lemma transpose_source_reversal (idx : list Z) :
  transpose_source
    (map (fun i : nat => Z.of_nat (length idx) - 1 - Z.of_nat i) (seq 0 (length idx)))
    idx
  = Ok (reverse idx).
Proof.
  set (n := length idx).
  set (axes := map (fun i : nat => Z.of_nat n - 1 - Z.of_nat i) (seq 0 n)).
  assert (Hl : length axes = n) by (unfold axes; by rewrite length_map, length_seq).
  unfold transpose_source, ndim. rewrite Hl.
  match goal with
  | |- for_each ?body _ ?s0 = _ =>
      destruct (for_each_range_inv
        (fun i src => src = replicate (n - i) 0 ++ reverse (take i idx))
        body n s0) as (s' & Hs' & HP)
  end.
  - rewrite take_0, Nat.sub_0_r. simpl. by rewrite app_nil_r.
  - intros i src Hi ->.
    destruct (lookup_lt_is_Some_2 idx i Hi) as [j Hj].
    assert (Hax : axes !! i = Some (Z.of_nat n - 1 - Z.of_nat i))
      by (by apply default_axes_lookup).
    eexists. split.
    + rewrite (vec_at_nat _ _ _ Hax).
      cbn [mbind result_bind].
      rewrite (vec_at_nat _ _ _ Hj). cbn [mbind result_bind].
      replace (Z.of_nat n - 1 - Z.of_nat i) with (Z.of_nat (n - 1 - i)) by lia.
      apply vec_set_nat.
      rewrite length_app, length_replicate, length_reverse, length_take. lia.
    + rewrite (take_S_r _ _ _ Hj), reverse_snoc.
      replace (n - i)%nat with (S (n - S i)) by lia.
      rewrite replicate_S_end, <- app_assoc.
      rewrite insert_app_r_alt by (rewrite length_replicate; lia).
      rewrite length_replicate.
      replace (n - 1 - i - (n - S i))%nat with 0%nat by lia.
      reflexivity.
  - rewrite Hs', HP. rewrite Nat.sub_diag, take_ge by (unfold n; lia). done.
Qed.

Lemma unravel_length ds k : length (unravel ds k) = length ds.
Proof.
  revert k. induction ds as [|d ds IH]; intros k; simpl; [done|].
  by rewrite IH.
Qed.

Section TransposeMemory.

Context {DType : Type} (dadd : DType -> DType -> DType).

Implicit Types (st : gmap nat (list DType)) (inb outb : list DType).

(** The default case of [NumpyTranspose] hands the reversal to
    [TransposeImpl]. *)
Lemma NumpyTranspose_default (x y : TBlob) st :
  NumpyTranspose dadd {| axes := None |} [x] [kWriteTo] [y] st
  = TransposeImpl dadd x y (reversal (length (shape_ x))) st.
Proof.
  unfold NumpyTranspose. cbn [axes].
  unfold mbind at 1 2 3 4 5, M_bind, lift.
  change (vec_at [kWriteTo] 0) with (Ok kWriteTo).
  change (vec_at [x] 0) with (Ok x). change (vec_at [y] 0) with (Ok y).
  cbv beta iota. rewrite bool_decide_eq_true_2 by done. cbn [CHECK].
  unfold ndim. rewrite transpose_default_axes_Ok. reflexivity.
Qed.

(** The strided copy under the reversal: the output element at offset [k]
    is the input element at the offset of the reversed multi-index. *)
Lemma TransposeImpl_reversal (x y : TBlob) inb outb st :
  Forall (fun d => 0 <= d) (shape_ x) ->
  shape_ y = reverse (shape_ x) ->
  dptr_ x <> dptr_ y ->
  st !! dptr_ x = Some inb -> length inb = Z.to_nat (Size (shape_ x)) ->
  st !! dptr_ y = Some outb -> length outb = Z.to_nat (Size (shape_ x)) ->
  TransposeImpl dadd x y (reversal (length (shape_ x))) st
  = (Ok tt,
     <[dptr_ y := gather dadd kWriteTo inb outb
         (fun k => Z.to_nat (ravel (shape_ x)
                     (reverse (unravel (shape_ y) (Z.of_nat k)))))]> st).
Proof.
  intros Hnn Hy Hne Hin Hinl Hout Houtl.
  pose proof (Size_nonneg _ Hnn) as HS.
  unfold TransposeImpl.
  replace (Size (shape_ y)) with (Z.of_nat (length outb))
    by (rewrite Hy, Size_reverse; lia).
  apply (Launch_gather dadd kWriteTo _
    (fun k => off ← lift (idx ← transpose_source (reversal (length (shape_ x)))
                                  (unravel (shape_ y) (Z.of_nat k));
                          Ok (ravel (shape_ x) idx));
              read_at (dptr_ x) off)
    _ (dptr_ x) (dptr_ y) inb outb); try done.
  intros k st' Hk Hin'.
  assert (Hpos : Forall (fun d => 0 < d) (shape_ x)) by (apply dims_positive; [done|lia]).
  assert (Hk' : 0 <= Z.of_nat k < Size (shape_ y)) by (rewrite Hy, Size_reverse; lia).
  assert (Hposy : Forall (fun d => 0 < d) (shape_ y))
    by (rewrite Hy; by apply Forall_reverse).
  pose proof (unravel_in_shape _ _ Hposy Hk') as Hjs.
  pose proof (in_shape_reverse _ _ Hjs) as Hrev.
  rewrite Hy, reverse_involutive in Hrev. rewrite <- Hy in Hrev.
  pose proof (ravel_bounds _ _ Hrev) as Hb.
  destruct (lookup_lt_is_Some_2 inb (Z.to_nat (ravel (shape_ x)
              (reverse (unravel (shape_ y) (Z.of_nat k)))))) as [v Hv]; [lia|].
  exists v. split; [done|].
  assert (Hlen : length (shape_ x) = length (unravel (shape_ y) (Z.of_nat k)))
    by (rewrite unravel_length, Hy, length_reverse; done).
  rewrite Hlen. unfold reversal. unfold mbind at 1, M_bind, lift.
  rewrite transpose_source_reversal. cbn [mbind result_bind].
  unfold read_at. rewrite Hin'. f_equal.
  apply vec_at_Ok. split; [lia | done].
Qed.

End TransposeMemory.

(** C7.  Default transpose.  With the axes parameter unknown, the entry
    point calls the strided copy with the axes [i |-> ndim - 1 - i].  With
    the copy as the spec describes it, transposing [x] into [y] (of the
    reversed shape) and [y] into [z] (of the shape of [x]) leaves in [z] the
    elements of [x], for every shape, of any rank. *)
Theorem transpose_default_involution {DType : Type}
    (dadd : DType -> DType -> DType) (x y z : TBlob)
    (inb yb zb : list DType) (st : gmap nat (list DType)) :
  Forall (fun d => 0 <= d) (shape_ x) ->
  shape_ y = reverse (shape_ x) ->
  shape_ z = shape_ x ->
  dptr_ x <> dptr_ y ->
  dptr_ y <> dptr_ z ->
  st !! dptr_ x = Some inb -> length inb = Z.to_nat (Size (shape_ x)) ->
  st !! dptr_ y = Some yb -> length yb = Z.to_nat (Size (shape_ x)) ->
  st !! dptr_ z = Some zb -> length zb = Z.to_nat (Size (shape_ x)) ->
  (exists ax,
     transpose_default_axes (ndim (shape_ x)) = Ok ax /\
     length ax = length (shape_ x) /\
     (forall i : nat, (i < length (shape_ x))%nat ->
        ax !! i = Some (ndim (shape_ x) - 1 - Z.of_nat i)) /\
     NumpyTranspose dadd {| axes := None |} [x] [kWriteTo] [y] st
     = TransposeImpl dadd x y ax st) /\
  exists st1 st2,
    NumpyTranspose dadd {| axes := None |} [x] [kWriteTo] [y] st = (Ok tt, st1) /\
    NumpyTranspose dadd {| axes := None |} [y] [kWriteTo] [z] st1 = (Ok tt, st2) /\
    st2 !! dptr_ z = Some inb.
Proof.
  intros Hnn Hy Hz Hxy Hyz Hin Hinl Hyb Hybl Hzb Hzbl.
  pose proof (Size_nonneg _ Hnn) as HS.
  split.
  - exists (reversal (length (shape_ x))). unfold ndim.
    split; [apply transpose_default_axes_Ok|].
    split; [unfold reversal; by rewrite length_map, length_seq|].
    split; [intros i Hi; by apply default_axes_lookup|].
    apply NumpyTranspose_default.
  - set (Y := gather dadd kWriteTo inb yb
                (fun k => Z.to_nat (ravel (shape_ x)
                   (reverse (unravel (shape_ y) (Z.of_nat k)))))).
    set (Zb := gather dadd kWriteTo Y zb
                (fun k => Z.to_nat (ravel (shape_ y)
                   (reverse (unravel (shape_ z) (Z.of_nat k)))))).
    exists (<[dptr_ y := Y]> st), (<[dptr_ z := Zb]> (<[dptr_ y := Y]> st)).
    assert (HYl : length Y = Z.to_nat (Size (shape_ x)))
      by (unfold Y; by rewrite gather_length).
    split; [|split].
    + rewrite NumpyTranspose_default. by apply TransposeImpl_reversal.
    + rewrite NumpyTranspose_default.
      apply TransposeImpl_reversal.
      * rewrite Hy. by apply Forall_reverse.
      * by rewrite Hz, Hy, reverse_involutive.
      * done.
      * by rewrite lookup_insert_eq.
      * by rewrite Hy, Size_reverse.
      * by rewrite lookup_insert_ne.
      * by rewrite Hy, Size_reverse.
    + rewrite lookup_insert_eq. f_equal.
      apply list_eq. intros k.
      destruct (decide (k < length inb)%nat) as [Hk|Hk].
      2: { rewrite !lookup_ge_None_2; [done | lia |].
           unfold Zb. rewrite gather_length. lia. }
      assert (Hpos : Forall (fun d => 0 < d) (shape_ x))
        by (apply dims_positive; [done|lia]).
      assert (Hk' : 0 <= Z.of_nat k < Size (shape_ x)) by lia.
      pose proof (unravel_in_shape _ _ Hpos Hk') as Hjs.
      pose proof (in_shape_reverse _ _ Hjs) as Hrev. rewrite <- Hy in Hrev.
      pose proof (ravel_bounds _ _ Hrev) as Hb.
      rewrite Hy, Size_reverse in Hb. rewrite <- Hy in Hb.
      destruct (lookup_lt_is_Some_2 inb k Hk) as [v Hv].
      destruct (lookup_lt_is_Some_2 zb k) as [oldz Holdz]; [lia|].
      set (k1 := Z.to_nat (ravel (shape_ y)
                   (reverse (unravel (shape_ x) (Z.of_nat k))))) in *.
      destruct (lookup_lt_is_Some_2 yb k1) as [oldy Holdy]; [unfold k1; lia|].
      assert (HY : Y !! k1 = Some v).
      { unfold Y. rewrite (gather_lookup dadd kWriteTo inb yb _ k1 oldy v); [done|done|].
        unfold k1. rewrite Z2Nat.id by lia.
        rewrite unravel_ravel by done. rewrite reverse_involutive.
        rewrite ravel_unravel by done. by rewrite Nat2Z.id. }
      unfold Zb. rewrite Hz.
      rewrite (gather_lookup dadd kWriteTo Y zb _ k oldz v); done.
Qed.

Lemma transpose_default_involution_witness :
  exists st1 st2,
    NumpyTranspose Z.add {| axes := None |} [ex_in] [kWriteTo]
      [{| shape_ := [3; 2]; dptr_ := 2 |}]
      (<[3%nat := [7; 7; 7; 7; 7; 7]]> ex_store) = (Ok tt, st1) /\
    NumpyTranspose Z.add {| axes := None |} [{| shape_ := [3; 2]; dptr_ := 2 |}]
      [kWriteTo] [{| shape_ := [2; 3]; dptr_ := 3 |}] st1 = (Ok tt, st2) /\
    st2 !! 3%nat = Some [1; 2; 3; 4; 5; 6].
Proof.
  destruct (transpose_default_involution Z.add ex_in
              {| shape_ := [3; 2]; dptr_ := 2 |} {| shape_ := [2; 3]; dptr_ := 3 |}
              [1; 2; 3; 4; 5; 6] [0; 0; 0; 0; 0; 0] [7; 7; 7; 7; 7; 7]
              (<[3%nat := [7; 7; 7; 7; 7; 7]]> ex_store)) as [_ H].
  - repeat constructor; vm_compute; discriminate.
  - reflexivity.
  - reflexivity.
  - vm_compute. discriminate.
  - vm_compute. discriminate.
  - reflexivity.
  - reflexivity.
  - reflexivity.
  - reflexivity.
  - reflexivity.
  - reflexivity.
  - exact H.
Defined.

(** * Vstack *)

(** The row view shares the memory of the blob; its shape is
    [(1, Size)] for rank 0 or 1 and unchanged from rank 2 on. *)
Lemma vstack_row_view_spec (b : TBlob) :
  dptr_ (vstack_row_view b) = dptr_ b /\
  (ndim (shape_ b) <= 1 -> shape_ (vstack_row_view b) = [1; Size (shape_ b)]) /\
  (2 <= ndim (shape_ b) -> vstack_row_view b = b).
Proof.
  unfold vstack_row_view, ndim.
  destruct (Z.eqb_spec (Z.of_nat (length (shape_ b))) 0);
    destruct (Z.eqb_spec (Z.of_nat (length (shape_ b))) 1);
    cbn [orb reshape dptr_ shape_ Shape2]; repeat split; intros; try done; lia.
Qed.

(** The loop under "reshape if necessary" fills every slot with the row
    view of the blob at the same position. *)
Lemma vstack_data_Ok (blobs : list TBlob) :
  vstack_data (Z.of_nat (length blobs)) blobs = Ok (map vstack_row_view blobs).
Proof.
  unfold vstack_data. rewrite Nat2Z.id.
  rewrite <- (length_map vstack_row_view blobs) at 1.
  apply for_each_overwrite; [by rewrite length_replicate, length_map|].
  intros i v Hv. rewrite list_lookup_fmap in Hv.
  destruct (blobs !! i) as [b|] eqn:Hb; [|done]. inversion Hv; subst v.
  rewrite (vec_at_nat _ _ _ Hb). cbn [mbind result_bind].
  apply vec_set_nat.
  rewrite length_take_drop by (by rewrite length_replicate, length_map).
  rewrite length_map. by eapply lookup_lt_Some.
Qed.

Section VstackDelegation.

Context {DType : Type}.
Context (Forward : ConcatParam -> list TBlob -> list OpReqType -> list TBlob
                   -> @M DType unit).
Context (Backward : ConcatParam -> TBlob -> list OpReqType -> list TBlob
                    -> @M DType unit).

Lemma NumpyVstackForward_Ok param (inputs : list TBlob) r out st :
  Z.of_nat (length inputs) = num_args param -> 1 <= num_args param ->
  NumpyVstackForward Forward param inputs [r] [out] st
  = Forward {| concat_num_args := num_args param; concat_dim := 0 |}
      (map vstack_row_view inputs) [r] [out] st.
Proof.
  intros Hn H1. unfold NumpyVstackForward.
  rewrite <- Hn, vstack_data_Ok.
  destruct inputs as [|in0 inputs]; [simpl in *; lia|].
  rewrite (Z.eqb_refl (Z.of_nat (length (in0 :: inputs)))). reflexivity.
Qed.

Lemma NumpyVstackForward_rejects param (inputs : list TBlob) req outputs st :
  Z.of_nat (length inputs) <> num_args param \/
  length outputs <> 1%nat \/ length req <> 1%nat ->
  NumpyVstackForward Forward param inputs req outputs st = (Err CheckFailed, st).
Proof.
  intros H. unfold NumpyVstackForward, mbind, M_bind, lift.
  destruct (Z.eqb_spec (Z.of_nat (length inputs)) (num_args param)); [|done].
  destruct (Z.eqb_spec (Z.of_nat (length outputs)) 1); [|done].
  destruct (Z.eqb_spec (Z.of_nat (length req)) 1); [|done].
  lia.
Qed.

Lemma NumpyVstackBackward_Ok param in0 (req : list OpReqType) outputs st :
  Z.of_nat (length outputs) = num_args param ->
  Z.of_nat (length req) = num_args param ->
  NumpyVstackBackward Backward param [in0] req outputs st
  = Backward {| concat_num_args := num_args param; concat_dim := 0 |}
      in0 req (map vstack_row_view outputs) st.
Proof.
  intros Hn Hr. unfold NumpyVstackBackward.
  rewrite Hr. rewrite <- Hn, vstack_data_Ok.
  rewrite (Z.eqb_refl (Z.of_nat (length outputs))). reflexivity.
Qed.

Lemma NumpyVstackBackward_rejects param (inputs : list TBlob) req outputs st :
  length inputs <> 1%nat \/
  Z.of_nat (length outputs) <> num_args param \/
  Z.of_nat (length req) <> num_args param ->
  NumpyVstackBackward Backward param inputs req outputs st = (Err CheckFailed, st).
Proof.
  intros H. unfold NumpyVstackBackward, mbind, M_bind, lift.
  destruct (Z.eqb_spec (Z.of_nat (length inputs)) 1); [|done].
  destruct (Z.eqb_spec (Z.of_nat (length outputs)) (num_args param)); [|done].
  destruct (Z.eqb_spec (Z.of_nat (length req)) (num_args param)); [|done].
  lia.
Qed.

End VstackDelegation.

Lemma row_views_pointwise (blobs : list TBlob) :
  length (map vstack_row_view blobs) = length blobs /\
  forall (i : nat) b, blobs !! i = Some b ->
    exists v, map vstack_row_view blobs !! i = Some v /\
      dptr_ v = dptr_ b /\
      (ndim (shape_ b) <= 1 -> shape_ v = [1; Size (shape_ b)]) /\
      (2 <= ndim (shape_ b) -> v = b).
Proof.
  split; [apply length_map|].
  intros i b Hb. exists (vstack_row_view b).
  split; [by rewrite list_lookup_fmap, Hb|].
  apply vstack_row_view_spec.
Qed.

(** C8.  Vstack forward.  With [num_args >= 1] as the parameter declares:
    when the input count is [num_args] and there is one output and one write
    policy, the call is the forward operation of the concatenation primitive,
    set up for [num_args] arguments and axis 0, on the row views of the
    inputs in their order, with the same request and output lists; the row
    view of an input has the input's memory, shape [(1, Size)] when the
    input's rank is 0 or 1, and is the input itself from rank 2 on.  With any
    other count the call fails a check and the memory is unchanged. *)
Theorem vstack_forward_decomposition {DType : Type}
    (Forward : ConcatParam -> list TBlob -> list OpReqType -> list TBlob
               -> @M DType unit)
    (param : NumpyVstackParam) (inputs : list TBlob) (req : list OpReqType)
    (outputs : list TBlob) (st : gmap nat (list DType)) :
  1 <= num_args param ->
  (Z.of_nat (length inputs) = num_args param ->
   length outputs = 1%nat -> length req = 1%nat ->
   exists data,
     length data = length inputs /\
     (forall (i : nat) b, inputs !! i = Some b ->
        exists v, data !! i = Some v /\
          dptr_ v = dptr_ b /\
          (ndim (shape_ b) <= 1 -> shape_ v = [1; Size (shape_ b)]) /\
          (2 <= ndim (shape_ b) -> v = b)) /\
     NumpyVstackForward Forward param inputs req outputs st
     = Forward {| concat_num_args := num_args param; concat_dim := 0 |}
         data req outputs st) /\
  (Z.of_nat (length inputs) <> num_args param \/
   length outputs <> 1%nat \/ length req <> 1%nat ->
   NumpyVstackForward Forward param inputs req outputs st = (Err CheckFailed, st)).
Proof.
  intros H1. split.
  - intros Hn Ho Hr.
    destruct outputs as [|out [|? ?]]; try discriminate.
    destruct req as [|r [|? ?]]; try discriminate.
    exists (map vstack_row_view inputs).
    destruct (row_views_pointwise inputs) as [Hl Hp].
    split; [done|]. split; [done|].
    by apply NumpyVstackForward_Ok.
  - apply NumpyVstackForward_rejects.
Qed.

Lemma vstack_forward_decomposition_witness :
  (exists data,
     length data = 3%nat /\
     NumpyVstackForward (concat0_Forward Z.add) {| num_args := 3 |}
       ex_rows [kWriteTo] [ex_stacked] (ex_vstore (replicate 12 0))
     = concat0_Forward Z.add {| concat_num_args := 3; concat_dim := 0 |}
         data [kWriteTo] [ex_stacked] (ex_vstore (replicate 12 0))) /\
  NumpyVstackForward (concat0_Forward Z.add) {| num_args := 3 |}
    [ex_stacked] [kWriteTo] [ex_stacked] (ex_vstore (replicate 12 0))
  = (Err CheckFailed, ex_vstore (replicate 12 0)).
Proof.
  split.
  - destruct (vstack_forward_decomposition (concat0_Forward Z.add)
                {| num_args := 3 |} ex_rows [kWriteTo] [ex_stacked]
                (ex_vstore (replicate 12 0))) as [H _].
    + simpl. lia.
    + destruct H as (data & Hl & _ & Heq); try reflexivity.
      exists data. split; [exact Hl | exact Heq].
  - destruct (vstack_forward_decomposition (concat0_Forward Z.add)
                {| num_args := 3 |} [ex_stacked] [kWriteTo] [ex_stacked]
                (ex_vstore (replicate 12 0))) as [_ H].
    + simpl. lia.
    + apply H. left. simpl. lia.
Defined.

(** C9.  Vstack backward.  With one incoming gradient, [num_args]
    gradient outputs and [num_args] write policies, the call is the backward
    operation of the concatenation primitive, set up for [num_args] arguments
    and axis 0, on the incoming gradient, the write policies as given, and the
    row views of the gradient outputs in their order (same memory; shape
    [(1, Size)] for rank 0 or 1, unchanged from rank 2 on).  With any other
    count the call fails a check and the memory is unchanged. *)
Theorem vstack_backward_decomposition {DType : Type}
    (Backward : ConcatParam -> TBlob -> list OpReqType -> list TBlob
                -> @M DType unit)
    (param : NumpyVstackParam) (inputs : list TBlob) (req : list OpReqType)
    (outputs : list TBlob) (st : gmap nat (list DType)) :
  (forall in0, inputs = [in0] ->
   Z.of_nat (length outputs) = num_args param ->
   Z.of_nat (length req) = num_args param ->
   exists data,
     length data = length outputs /\
     (forall (i : nat) b, outputs !! i = Some b ->
        exists v, data !! i = Some v /\
          dptr_ v = dptr_ b /\
          (ndim (shape_ b) <= 1 -> shape_ v = [1; Size (shape_ b)]) /\
          (2 <= ndim (shape_ b) -> v = b)) /\
     NumpyVstackBackward Backward param inputs req outputs st
     = Backward {| concat_num_args := num_args param; concat_dim := 0 |}
         in0 req data st) /\
  (length inputs <> 1%nat \/
   Z.of_nat (length outputs) <> num_args param \/
   Z.of_nat (length req) <> num_args param ->
   NumpyVstackBackward Backward param inputs req outputs st = (Err CheckFailed, st)).
Proof.
  split.
  - intros in0 -> Hn Hr.
    exists (map vstack_row_view outputs).
    destruct (row_views_pointwise outputs) as [Hl Hp].
    split; [done|]. split; [done|].
    by apply NumpyVstackBackward_Ok.
  - apply NumpyVstackBackward_rejects.
Qed.

Lemma vstack_backward_decomposition_witness :
  (exists data,
     length data = 3%nat /\
     NumpyVstackBackward (concat0_Backward Z.add) {| num_args := 3 |}
       [ex_stacked] [kWriteTo; kAddTo; kNullOp] ex_rows
       (ex_vstore [10; 20; 30; 40; 50; 60; 70; 80; 90; 100; 110; 120])
     = concat0_Backward Z.add {| concat_num_args := 3; concat_dim := 0 |}
         ex_stacked [kWriteTo; kAddTo; kNullOp] data
         (ex_vstore [10; 20; 30; 40; 50; 60; 70; 80; 90; 100; 110; 120])) /\
  NumpyVstackBackward (concat0_Backward Z.add) {| num_args := 2 |}
    [ex_stacked] [kWriteTo; kAddTo; kNullOp] ex_rows (ex_vstore [])
  = (Err CheckFailed, ex_vstore []).
Proof.
  split.
  - destruct (vstack_backward_decomposition (concat0_Backward Z.add)
                {| num_args := 3 |} [ex_stacked] [kWriteTo; kAddTo; kNullOp]
                ex_rows
                (ex_vstore [10; 20; 30; 40; 50; 60; 70; 80; 90; 100; 110; 120]))
      as [H _].
    destruct (H ex_stacked) as (data & Hl & _ & Heq); try reflexivity.
    exists data. split; [exact Hl | exact Heq].
  - destruct (vstack_backward_decomposition (concat0_Backward Z.add)
                {| num_args := 2 |} [ex_stacked] [kWriteTo; kAddTo; kNullOp]
                ex_rows (ex_vstore [])) as [_ H].
    apply H. right. left. simpl. lia.
Defined.

(** The stacking example of the spec, run with the concatenation
    primitive as the spec describes it: inputs of shapes (3,), (1,3), (2,3)
    fill the (4,3) output row after row; backward, the rows of the gradient
    go back to the three slots, each under its own write policy. *)
Example vstack_forward_example :
  NumpyVstackForward (concat0_Forward Z.add) {| num_args := 3 |}
    ex_rows [kWriteTo] [ex_stacked] (ex_vstore (replicate 12 0))
  = (Ok tt, ex_vstore [1; 2; 3; 4; 5; 6; 7; 8; 9; 10; 11; 12]).
Proof. vm_compute. reflexivity. Qed.

Example vstack_backward_example :
  NumpyVstackBackward (concat0_Backward Z.add) {| num_args := 3 |}
    [ex_stacked] [kWriteTo; kAddTo; kNullOp] ex_rows
    (ex_vstore [10; 20; 30; 40; 50; 60; 70; 80; 90; 100; 110; 120])
  = (Ok tt,
     <[1%nat := [10; 20; 30]]>
       (<[2%nat := [44; 55; 66]]>
          (ex_vstore [10; 20; 30; 40; 50; 60; 70; 80; 90; 100; 110; 120]))).
Proof. vm_compute. reflexivity. Qed.

(** * Further properties of the code *)

(** ** Requests and arities *)

(** X1.  [NumpyTranspose] accepts the write-to request only: with any other
    first request the call fails its check before reading an input or an
    output, whatever the axes are, and the memory is unchanged. *)
Theorem NumpyTranspose_requires_kWriteTo {DType : Type}
    (dadd : DType -> DType -> DType) (param : NumpyTransposeParam)
    (inputs : list TBlob) (req0 : OpReqType) (reqs : list OpReqType)
    (outputs : list TBlob) (st : gmap nat (list DType)) :
  req0 <> kWriteTo ->
  NumpyTranspose dadd param inputs (req0 :: reqs) outputs st = (Err CheckFailed, st).
Proof.
  intros Hreq. unfold NumpyTranspose.
  unfold mbind at 1 2, M_bind, lift.
  change (vec_at (req0 :: reqs) 0) with (Ok req0). cbv beta iota.
  by rewrite bool_decide_eq_false_2.
Qed.

Lemma NumpyTranspose_requires_kWriteTo_witness :
  NumpyTranspose Z.add {| axes := Some [1; 0] |} [ex_in] [kAddTo; kWriteTo]
    [ex_out] ex_store
  = (Err CheckFailed, ex_store).
Proof.
  apply (NumpyTranspose_requires_kWriteTo Z.add). discriminate.
Defined.

(** X2.  The default axes of [NumpyTranspose] for any rank [n]: the loop
    succeeds, fills [n] entries that are pairwise different and lie in
    [0, n), and the list is its own inverse: entry [axes[i]] is [i]. *)
Theorem transpose_default_axes_self_inverse (n : nat) :
  exists ax,
    transpose_default_axes (Z.of_nat n) = Ok ax /\
    length ax = n /\
    NoDup ax /\
    forall (i : nat) a, ax !! i = Some a ->
      0 <= a < Z.of_nat n /\ ax !! Z.to_nat a = Some (Z.of_nat i).
Proof.
  exists (reversal n). split; [apply transpose_default_axes_Ok|].
  split; [unfold reversal; by rewrite length_map, length_seq|].
  split.
  - unfold reversal. apply NoDup_fmap_2; [|apply NoDup_seq].
    intros i j Hij. lia.
  - intros i a Ha.
    assert (Hi : (i < n)%nat).
    { apply lookup_lt_Some in Ha. unfold reversal in Ha.
      by rewrite length_map, length_seq in Ha. }
    unfold reversal in *. rewrite default_axes_lookup in Ha by done.
    inversion Ha; subst a. split; [lia|].
    replace (Z.to_nat (Z.of_nat n - 1 - Z.of_nat i)) with (n - 1 - i)%nat by lia.
    rewrite default_axes_lookup by lia. f_equal. lia.
Qed.

(** X3.  [NumpyRollCompute] checks its arities first: unless there is
    exactly one input, one output and one request, the call fails a check
    and the memory is unchanged, whatever the parameters are. *)
Theorem NumpyRollCompute_arity {DType : Type} (dadd : DType -> DType -> DType)
    (param : NumpyRollParam) (inputs : list TBlob) (req : list OpReqType)
    (outputs : list TBlob) (st : gmap nat (list DType)) :
  length inputs <> 1%nat \/ length outputs <> 1%nat \/ length req <> 1%nat ->
  NumpyRollCompute dadd param inputs req outputs st = (Err CheckFailed, st).
Proof.
  intros H. unfold NumpyRollCompute, mbind, M_bind, lift.
  destruct (Z.eqb_spec (Z.of_nat (length inputs)) 1); [|done].
  destruct (Z.eqb_spec (Z.of_nat (length outputs)) 1); [|done].
  destruct (Z.eqb_spec (Z.of_nat (length req)) 1); [|done].
  lia.
Qed.

Lemma NumpyRollCompute_arity_witness :
  NumpyRollCompute Z.add {| shift := Some [1]; axis := None |}
    [ex_in] [kWriteTo] [ex_out; ex_out] ex_store
  = (Err CheckFailed, ex_store).
Proof.
  apply (NumpyRollCompute_arity Z.add). right. left. simpl. lia.
Defined.

(** ** The flatten mode for every requested shift *)

(** X4.  The effective shift of the flatten mode, for every requested
    shift (of any size) and every element count [n] within [int]: it lies in
    [0, n) and is the floor-mod by [n] of the shift narrowed to [int]. *)
Theorem roll_flat_shift_range (s0 n : Z) :
  0 < n <= INT_MAX ->
  0 <= roll_flat_shift s0 n < n /\
  roll_flat_shift s0 n = int_of s0 mod n.
Proof. apply roll_flat_shift_bounds. Qed.

Lemma roll_flat_shift_range_witness :
  0 <= roll_flat_shift (2 ^ 32 + 5) 6 < 6 /\
  roll_flat_shift (2 ^ 32 + 5) 6 = int_of (2 ^ 32 + 5) mod 6.
Proof.
  apply (roll_flat_shift_range (2 ^ 32 + 5) 6). unfold INT_MAX. lia.
Defined.

(** X5.  The flatten kernel stays inside the input: for every requested
    shift and every destination offset [i] in [0, n), the source offset
    [RollAxisNone_forward] computes lies in [0, n). *)
Theorem roll_flat_index_in_bounds (s0 n i : Z) :
  0 < n <= INT_MAX -> 0 <= i < n ->
  0 <= roll_flat_index i n (roll_flat_shift s0 n) < n.
Proof.
  intros Hn Hi.
  destruct (roll_flat_shift_bounds s0 n Hn) as [Hsh _].
  rewrite roll_flat_index_mod by done.
  apply Z.mod_pos_bound. lia.
Qed.

Lemma roll_flat_index_in_bounds_witness :
  0 <= roll_flat_index 0 6 (roll_flat_shift (-8) 6) < 6.
Proof.
  apply (roll_flat_index_in_bounds (-8) 6 0); unfold INT_MAX; lia.
Defined.

(** X6.  Flatten-mode periodicity.  Two requested shifts within [int] that
    differ by a multiple of the element count give the same call: the same
    result and the same memory, on every memory. *)
Theorem roll_flat_periodic {DType : Type} (dadd : DType -> DType -> DType)
    (x y : TBlob) (req : OpReqType) (s k : Z) (rest : list Z)
    (st : gmap nat (list DType)) :
  0 < Size (shape_ x) <= INT_MAX ->
  fits_int s ->
  fits_int (s + k * Size (shape_ x)) ->
  NumpyRollCompute dadd
    {| shift := Some (s + k * Size (shape_ x) :: rest); axis := None |}
    [x] [req] [y] st
  = NumpyRollCompute dadd {| shift := Some (s :: rest); axis := None |}
      [x] [req] [y] st.
Proof.
  intros Hn Hs Hsk. rewrite !NumpyRollCompute_single. cbn [axis shift].
  rewrite !roll_flat_shift_mod by done.
  by rewrite Z.mod_add by lia.
Qed.

Lemma roll_flat_periodic_witness :
  NumpyRollCompute Z.add {| shift := Some [1 + (-3) * 6]; axis := None |}
    [ex_in] [kWriteTo] [ex_out] ex_store
  = NumpyRollCompute Z.add {| shift := Some [1]; axis := None |}
      [ex_in] [kWriteTo] [ex_out] ex_store.
Proof.
  apply (roll_flat_periodic Z.add ex_in ex_out kWriteTo 1 (-3) []).
  - vm_compute. split; [reflexivity | discriminate].
  - vm_compute. split; discriminate.
  - vm_compute. split; discriminate.
Defined.

(** ** Two rolls in a row *)

Lemma gather_ext {DType : Type} (dadd : DType -> DType -> DType) req
    (inb outb : list DType) (src1 src2 : nat -> nat) :
  (forall i : nat, (i < length outb)%nat -> src1 i = src2 i) ->
  gather dadd req inb outb src1 = gather dadd req inb outb src2.
Proof.
  intros H. unfold gather. apply list_eq. intros i.
  rewrite !list_lookup_imap.
  destruct (outb !! i) as [old|] eqn:E; [|done]. simpl.
  by rewrite (H i) by (by eapply lookup_lt_Some).
Qed.

Lemma gather_kWriteTo_lookup {DType : Type} (dadd : DType -> DType -> DType)
    (inb outb : list DType) (src : nat -> nat) (i : nat) :
  (i < length outb)%nat -> (src i < length inb)%nat ->
  gather dadd kWriteTo inb outb src !! i = inb !! src i.
Proof.
  intros Hi Hs.
  destruct (lookup_lt_is_Some_2 outb i Hi) as [old Hold].
  destruct (lookup_lt_is_Some_2 inb (src i) Hs) as [v Hv].
  rewrite Hv. by apply (gather_lookup dadd kWriteTo inb outb src i old v).
Qed.

Lemma flat_source_compose i s t n :
  0 < n ->
  ((i - t mod n) mod n - s mod n) mod n = (i - (s + t) mod n) mod n.
Proof.
  intros Hn.
  rewrite Zminus_mod_idemp_l, Zminus_mod_idemp_r.
  replace (i - t mod n - s) with (i - s - t mod n) by lia.
  rewrite Zminus_mod_idemp_r, Zminus_mod_idemp_r.
  f_equal. lia.
Qed.

Section RollTwice.

Context {DType : Type} (dadd : DType -> DType -> DType).

(** Rolling [x] into [y] by [s] and [y] into [z] by [t], both written
    unconditionally: [z] then holds, at every offset [i], the element of
    [x] at offset [(i - (s + t) mod n) mod n]. *)
Lemma roll_flat_twice (x y z : TBlob) (s t : Z) (inb yb zb : list DType)
    (st : gmap nat (list DType)) :
  0 < Size (shape_ x) <= INT_MAX ->
  Size (shape_ y) = Size (shape_ x) ->
  Size (shape_ z) = Size (shape_ x) ->
  fits_int s -> fits_int t ->
  dptr_ x <> dptr_ y -> dptr_ y <> dptr_ z ->
  st !! dptr_ x = Some inb -> length inb = Z.to_nat (Size (shape_ x)) ->
  st !! dptr_ y = Some yb -> length yb = Z.to_nat (Size (shape_ x)) ->
  st !! dptr_ z = Some zb -> length zb = Z.to_nat (Size (shape_ x)) ->
  exists st1 st2 zb',
    NumpyRollCompute dadd {| shift := Some [s]; axis := None |}
      [x] [kWriteTo] [y] st = (Ok tt, st1) /\
    NumpyRollCompute dadd {| shift := Some [t]; axis := None |}
      [y] [kWriteTo] [z] st1 = (Ok tt, st2) /\
    st2 !! dptr_ z = Some zb' /\
    length zb' = Z.to_nat (Size (shape_ x)) /\
    forall i : nat, (i < Z.to_nat (Size (shape_ x)))%nat ->
      zb' !! i
      = inb !! Z.to_nat ((Z.of_nat i - (s + t) mod Size (shape_ x))
                         mod Size (shape_ x)).
Proof.
  intros Hn Hy Hz Hs Ht Hxy Hyz Hin Hinl Hyb Hybl Hzb Hzbl.
  set (n := Size (shape_ x)) in *.
  set (fs := fun i : nat => Z.to_nat ((Z.of_nat i - s mod n) mod n)).
  set (ft := fun i : nat => Z.to_nat ((Z.of_nat i - t mod n) mod n)).
  set (Y := gather dadd kWriteTo inb yb fs).
  set (Zb := gather dadd kWriteTo Y zb ft).
  assert (HYl : length Y = Z.to_nat n) by (unfold Y; by rewrite gather_length).
  assert (Hft : forall i : nat, (ft i < Z.to_nat n)%nat).
  { intros i. unfold ft. pose proof (Z.mod_pos_bound (Z.of_nat i - t mod n) n). lia. }
  assert (Hfs : forall i : nat, (fs i < Z.to_nat n)%nat).
  { intros i. unfold fs. pose proof (Z.mod_pos_bound (Z.of_nat i - s mod n) n). lia. }
  exists (<[dptr_ y := Y]> st), (<[dptr_ z := Zb]> (<[dptr_ y := Y]> st)), Zb.
  split; [|split; [|split; [|split]]].
  - by apply (NumpyRollCompute_flat dadd x y kWriteTo s []).
  - pose proof (NumpyRollCompute_flat dadd y z kWriteTo t [] Y zb
                  (<[dptr_ y := Y]> st)) as H2.
    rewrite Hy in H2. apply H2; try done.
    + by rewrite lookup_insert_eq.
    + by rewrite lookup_insert_ne.
  - by rewrite lookup_insert_eq.
  - unfold Zb. by rewrite gather_length.
  - intros i Hi. unfold Zb.
    rewrite gather_kWriteTo_lookup by (rewrite ?HYl; auto; lia).
    unfold Y. rewrite gather_kWriteTo_lookup by (rewrite ?Hybl, ?Hinl; auto).
    f_equal. unfold fs, ft.
    pose proof (Z.mod_pos_bound (Z.of_nat i - t mod n) n).
    rewrite Z2Nat.id by lia. f_equal.
    apply flat_source_compose. lia.
Qed.

End RollTwice.

(** X7.  Flatten-mode rolls add up.  With all three shifts within [int]
    and the three arrays in distinct buffers of [n] elements ([n] within
    [int]): rolling [x] into [y] by [s] and then [y] into [z] by [t], both
    written unconditionally, leaves in [z] what rolling [x] into [z] by
    [s + t] leaves there. *)
Theorem roll_flat_compose {DType : Type} (dadd : DType -> DType -> DType)
    (x y z : TBlob) (s t : Z) (inb yb zb : list DType)
    (st : gmap nat (list DType)) :
  0 < Size (shape_ x) <= INT_MAX ->
  Size (shape_ y) = Size (shape_ x) ->
  Size (shape_ z) = Size (shape_ x) ->
  fits_int s -> fits_int t -> fits_int (s + t) ->
  dptr_ x <> dptr_ y -> dptr_ y <> dptr_ z -> dptr_ x <> dptr_ z ->
  st !! dptr_ x = Some inb -> length inb = Z.to_nat (Size (shape_ x)) ->
  st !! dptr_ y = Some yb -> length yb = Z.to_nat (Size (shape_ x)) ->
  st !! dptr_ z = Some zb -> length zb = Z.to_nat (Size (shape_ x)) ->
  exists st1 st2 st3,
    NumpyRollCompute dadd {| shift := Some [s]; axis := None |}
      [x] [kWriteTo] [y] st = (Ok tt, st1) /\
    NumpyRollCompute dadd {| shift := Some [t]; axis := None |}
      [y] [kWriteTo] [z] st1 = (Ok tt, st2) /\
    NumpyRollCompute dadd {| shift := Some [s + t]; axis := None |}
      [x] [kWriteTo] [z] st = (Ok tt, st3) /\
    st2 !! dptr_ z = st3 !! dptr_ z.
Proof.
  intros Hn Hy Hz Hs Ht Hst Hxy Hyz Hxz Hin Hinl Hyb Hybl Hzb Hzbl.
  destruct (roll_flat_twice dadd x y z s t inb yb zb st)
    as (st1 & st2 & zb' & H1 & H2 & H3 & H4 & H5); try done.
  exists st1, st2. eexists. split; [exact H1|]. split; [exact H2|].
  split; [by apply (NumpyRollCompute_flat dadd x z kWriteTo (s + t) [])|].
  rewrite H3, lookup_insert_eq. f_equal.
  apply list_eq. intros i. cbn [kernel_req].
  destruct (decide (i < Z.to_nat (Size (shape_ x)))%nat) as [Hi|Hi].
  - rewrite H5 by done.
    rewrite gather_kWriteTo_lookup; [done | lia |].
    pose proof (Z.mod_pos_bound
      (Z.of_nat i - (s + t) mod Size (shape_ x)) (Size (shape_ x))). lia.
  - rewrite !lookup_ge_None_2; [done | rewrite gather_length; lia | lia].
Qed.

Lemma roll_flat_compose_witness :
  exists st1 st2 st3,
    NumpyRollCompute Z.add {| shift := Some [4]; axis := None |}
      [ex_in] [kWriteTo] [ex_out] (<[3%nat := [7; 7; 7; 7; 7; 7]]> ex_store)
    = (Ok tt, st1) /\
    NumpyRollCompute Z.add {| shift := Some [-1]; axis := None |}
      [ex_out] [kWriteTo] [{| shape_ := [6]; dptr_ := 3 |}] st1 = (Ok tt, st2) /\
    NumpyRollCompute Z.add {| shift := Some [4 + -1]; axis := None |}
      [ex_in] [kWriteTo] [{| shape_ := [6]; dptr_ := 3 |}]
      (<[3%nat := [7; 7; 7; 7; 7; 7]]> ex_store) = (Ok tt, st3) /\
    st2 !! 3%nat = st3 !! 3%nat.
Proof.
  apply (roll_flat_compose Z.add ex_in ex_out {| shape_ := [6]; dptr_ := 3 |}
           4 (-1) [1; 2; 3; 4; 5; 6] [0; 0; 0; 0; 0; 0] [7; 7; 7; 7; 7; 7]);
    try reflexivity; try (vm_compute; discriminate);
    try (vm_compute; split; discriminate).
  vm_compute. split; [reflexivity | discriminate].
Defined.

(** X8.  A flatten-mode roll is undone by the opposite roll.  With [s] and
    [-s] within [int]: rolling [x] into [y] by [s] and then [y] into [z] by
    [-s], both written unconditionally, leaves in [z] the elements of [x]. *)
Theorem roll_flat_inverse {DType : Type} (dadd : DType -> DType -> DType)
    (x y z : TBlob) (s : Z) (inb yb zb : list DType)
    (st : gmap nat (list DType)) :
  0 < Size (shape_ x) <= INT_MAX ->
  Size (shape_ y) = Size (shape_ x) ->
  Size (shape_ z) = Size (shape_ x) ->
  fits_int s -> fits_int (- s) ->
  dptr_ x <> dptr_ y -> dptr_ y <> dptr_ z ->
  st !! dptr_ x = Some inb -> length inb = Z.to_nat (Size (shape_ x)) ->
  st !! dptr_ y = Some yb -> length yb = Z.to_nat (Size (shape_ x)) ->
  st !! dptr_ z = Some zb -> length zb = Z.to_nat (Size (shape_ x)) ->
  exists st1 st2,
    NumpyRollCompute dadd {| shift := Some [s]; axis := None |}
      [x] [kWriteTo] [y] st = (Ok tt, st1) /\
    NumpyRollCompute dadd {| shift := Some [- s]; axis := None |}
      [y] [kWriteTo] [z] st1 = (Ok tt, st2) /\
    st2 !! dptr_ z = Some inb.
Proof.
  intros Hn Hy Hz Hs Hms Hxy Hyz Hin Hinl Hyb Hybl Hzb Hzbl.
  destruct (roll_flat_twice dadd x y z s (- s) inb yb zb st)
    as (st1 & st2 & zb' & H1 & H2 & H3 & H4 & H5); try done.
  exists st1, st2. split; [exact H1|]. split; [exact H2|].
  rewrite H3. f_equal. apply list_eq. intros i.
  destruct (decide (i < Z.to_nat (Size (shape_ x)))%nat) as [Hi|Hi].
  - rewrite H5 by done. f_equal.
    rewrite Z.add_opp_diag_r, Z.mod_0_l, Z.sub_0_r by lia.
    rewrite Z.mod_small by lia. lia.
  - rewrite !lookup_ge_None_2; [done | lia | lia].
Qed.

Lemma roll_flat_inverse_witness :
  exists st1 st2,
    NumpyRollCompute Z.add {| shift := Some [4]; axis := None |}
      [ex_in] [kWriteTo] [ex_out] (<[3%nat := [7; 7; 7; 7; 7; 7]]> ex_store)
    = (Ok tt, st1) /\
    NumpyRollCompute Z.add {| shift := Some [- 4]; axis := None |}
      [ex_out] [kWriteTo] [{| shape_ := [6]; dptr_ := 3 |}] st1 = (Ok tt, st2) /\
    st2 !! 3%nat = Some [1; 2; 3; 4; 5; 6].
Proof.
  apply (roll_flat_inverse Z.add ex_in ex_out {| shape_ := [6]; dptr_ := 3 |}
           4 [1; 2; 3; 4; 5; 6] [0; 0; 0; 0; 0; 0] [7; 7; 7; 7; 7; 7]);
    try reflexivity; try (vm_compute; discriminate);
    try (vm_compute; split; discriminate).
  vm_compute. split; [reflexivity | discriminate].
Defined.

(** ** The two modes on a one-dimensional array *)

(** X9.  On an input of rank 1, rolling along its only axis (named 0 or
    -1) is the flatten-mode roll: the two branches of [NumpyRollCompute]
    give the same result and the same memory.  The shift is within [int],
    the array has [n] elements ([n] within [int]), input and output are in
    distinct buffers of [n] elements. *)
Theorem roll_rank1_axis_is_flat {DType : Type} (dadd : DType -> DType -> DType)
    (x y : TBlob) (req : OpReqType) (n a s : Z) (inb outb : list DType)
    (st : gmap nat (list DType)) :
  shape_ x = [n] ->
  0 < n <= INT_MAX ->
  Size (shape_ y) = n ->
  a = 0 \/ a = -1 ->
  fits_int s ->
  dptr_ x <> dptr_ y ->
  st !! dptr_ x = Some inb -> length inb = Z.to_nat n ->
  st !! dptr_ y = Some outb -> length outb = Z.to_nat n ->
  NumpyRollCompute dadd {| shift := Some [s]; axis := Some [a] |} [x] [req] [y] st
  = NumpyRollCompute dadd {| shift := Some [s]; axis := None |} [x] [req] [y] st.
Proof.
  intros Hshape Hn Hy Ha Hs Hne Hin Hinl Hout Houtl.
  assert (HS : Size (shape_ x) = n).
  { rewrite Hshape, Size_cons. change (Size []) with 1. lia. }
  rewrite (NumpyRollCompute_flat dadd x y req s [] inb outb)
    by (rewrite ?HS; done).
  rewrite (NumpyRollCompute_axes dadd x y req [a] [s] inb outb);
    rewrite ?HS; try done.
  - do 2 f_equal. apply gather_ext. intros i Hi.
    assert (Hshifts : per_axis_shifts (length (shape_ x))
              (roll_normalize_axes (ndim (shape_ x)) [a]) [s] = [s]).
    { rewrite Hshape. destruct Ha as [-> | ->];
        change (per_axis_shifts 1 [0] [s] = [s]);
        unfold per_axis_shifts, shift_pairs, assign_pairs; simpl;
        by rewrite int_of_fits. }
    rewrite Hshifts, Hshape. cbn [unravel roll_source ravel].
    change (Size []) with 1. f_equal.
    rewrite Z.div_1_r, Z.mul_1_r, Z.add_0_r.
    rewrite Zminus_mod_idemp_r.
    replace (Z.of_nat i + n - s) with (Z.of_nat i - s + 1 * n) by lia.
    by rewrite Z.mod_add by lia.
  - by rewrite Hshape.
  - rewrite Hshape. repeat constructor. lia.
  - lia.
  - rewrite Hshape. constructor; [|constructor].
    destruct Ha as [-> | ->]; unfold ndim; simpl; lia.
  - by left.
Qed.

Lemma roll_rank1_axis_is_flat_witness :
  NumpyRollCompute Z.add {| shift := Some [-8]; axis := Some [-1] |}
    [{| shape_ := [6]; dptr_ := 1 |}] [kAddTo] [{| shape_ := [6]; dptr_ := 2 |}]
    ex_store
  = NumpyRollCompute Z.add {| shift := Some [-8]; axis := None |}
      [{| shape_ := [6]; dptr_ := 1 |}] [kAddTo] [{| shape_ := [6]; dptr_ := 2 |}]
      ex_store.
Proof.
  apply (roll_rank1_axis_is_flat Z.add {| shape_ := [6]; dptr_ := 1 |}
           {| shape_ := [6]; dptr_ := 2 |} kAddTo 6 (-1) (-8)
           [1; 2; 3; 4; 5; 6] [0; 0; 0; 0; 0; 0]);
    try reflexivity.
  - unfold INT_MAX. lia.
  - right. reflexivity.
  - unfold fits_int, INT_MIN, INT_MAX. lia.
  - simpl. lia.
Defined.

(** ** The per-axis table as a whole *)

Lemma roll_step_inj d s j j' :
  0 <= j < d -> 0 <= j' < d ->
  (j + d - s) mod d = (j' + d - s) mod d -> j = j'.
Proof.
  intros Hj Hj' Heq.
  assert (Hd : (j - j') mod d = 0).
  { replace (j - j') with ((j + d - s) - (j' + d - s)) by lia.
    rewrite Zminus_mod, Heq, Z.sub_diag. apply Z.mod_0_l. lia. }
  apply Z.mod_divide in Hd; [|lia]. destruct Hd as [c Hc].
  destruct (Z.lt_trichotomy c 0) as [Hc0|[Hc0|Hc0]].
  - assert (c * d <= - d) by nia. lia.
  - subst c. lia.
  - assert (d <= c * d) by nia. lia.
Qed.

Lemma roll_source_inj shape shifts js js' :
  length shifts = length shape ->
  in_shape shape js -> in_shape shape js' ->
  roll_source shape shifts js = roll_source shape shifts js' -> js = js'.
Proof.
  intros Hlen Hjs. revert shifts js' Hlen.
  induction Hjs as [|d j ds js Hj _ IH]; intros shifts js' Hlen Hjs' Heq.
  - by inversion Hjs'.
  - inversion Hjs' as [|? j' ? js'' Hj' Hjs'']; subst.
    destruct shifts as [|s shifts]; [discriminate|].
    cbn [roll_source] in Heq. inversion Heq as [[H1 H2]].
    f_equal.
    + by apply (roll_step_inj d s).
    + apply (IH shifts); [simpl in Hlen; lia | done | done].
Qed.

Lemma ravel_inj shape js js' :
  in_shape shape js -> in_shape shape js' ->
  ravel shape js = ravel shape js' -> js = js'.
Proof.
  intros Hjs Hjs' Heq.
  rewrite <- (unravel_ravel shape js), <- (unravel_ravel shape js') by done.
  by rewrite Heq.
Qed.

Lemma roll_source_multiple shape shifts js :
  Forall2 (fun s d => s mod d = 0) shifts shape ->
  in_shape shape js ->
  roll_source shape shifts js = js.
Proof.
  intros Hmul. revert js.
  induction Hmul as [|s d shifts ds Hs _ IH]; intros js Hjs.
  - by inversion Hjs.
  - inversion Hjs as [|? j ? js' Hj Hjs']; subst.
    cbn [roll_source]. f_equal; [|by apply IH].
    apply Z.mod_divide in Hs; [|lia]. destruct Hs as [q ->].
    replace (j + d - q * d) with (j + (1 - q) * d) by lia.
    rewrite Z.mod_add by lia. apply Z.mod_small. lia.
Qed.

(** X10.  The per-axis table is a permutation of the offsets.  Under the
    conditions of a valid per-axis call (rank at least 1, positive sizes,
    element count within [int], axes in [-ndim, ndim), shift list of length 1
    or of the length of the axis list): the table names only offsets inside
    the input and names no offset twice, so the gather reads every input
    element exactly once and never outside the buffer. *)
Theorem roll_table_is_permutation (shape axis_v shift_v : list Z) :
  shape <> [] ->
  Forall (fun d => 0 < d) shape ->
  Size shape <= INT_MAX ->
  Forall (fun a => - ndim shape <= a < ndim shape) axis_v ->
  length shift_v = 1%nat \/ length shift_v = length axis_v ->
  exists table,
    roll_new_index shape axis_v (Some shift_v) = Ok table /\
    length table = Z.to_nat (Size shape) /\
    Forall (fun k => 0 <= k < Size shape) table /\
    NoDup table.
Proof.
  intros Hne Hpos Hmax Haxes Hlen.
  destruct (roll_new_index_entries shape axis_v shift_v)
    as (table & Htab & Hl & Hent); try done.
  set (shifts := per_axis_shifts _ _ _) in *.
  assert (Hsl : length shifts = length shape) by apply per_axis_shifts_length.
  assert (Hat : forall i x, table !! i = Some x ->
            in_shape shape (unravel shape (Z.of_nat i)) /\
            x = ravel shape (roll_source shape shifts (unravel shape (Z.of_nat i)))).
  { intros i x Hx. pose proof (lookup_lt_Some _ _ _ Hx) as Hi.
    assert (Hi' : 0 <= Z.of_nat i < Size shape) by lia.
    pose proof (unravel_in_shape _ _ Hpos Hi') as Hjs.
    split; [done|].
    pose proof (Hent _ Hjs) as Hk.
    rewrite ravel_unravel, Nat2Z.id in Hk by done. congruence. }
  exists table. split; [done|]. split; [done|]. split.
  - apply Forall_lookup. intros i x Hx.
    destruct (Hat i x Hx) as [Hjs ->].
    apply ravel_bounds. by apply roll_source_in_shape.
  - apply NoDup_alt. intros i j x Hi Hj.
    destruct (Hat i x Hi) as [Hjs1 E1]. destruct (Hat j x Hj) as [Hjs2 E2].
    rewrite E1 in E2.
    apply ravel_inj in E2; [|by apply roll_source_in_shape..].
    apply roll_source_inj in E2; [|done..].
    apply lookup_lt_Some in Hi, Hj.
    assert (Z.of_nat i = Z.of_nat j); [|lia].
    rewrite <- (ravel_unravel shape (Z.of_nat i)),
            <- (ravel_unravel shape (Z.of_nat j)) by (done || lia).
    by rewrite E2.
Qed.

Lemma roll_table_is_permutation_witness :
  exists table,
    roll_new_index [2; 3] [-1; 0] (Some [1; -4]) = Ok table /\
    length table = Z.to_nat (Size [2; 3]) /\
    Forall (fun k => 0 <= k < Size [2; 3]) table /\
    NoDup table.
Proof.
  apply (roll_table_is_permutation [2; 3] [-1; 0] [1; -4]).
  - discriminate.
  - repeat constructor.
  - vm_compute. discriminate.
  - repeat constructor; vm_compute; discriminate.
  - right. reflexivity.
Defined.

(** X11.  Whole turns leave the array in place.  In a valid per-axis
    call, when the shift assigned to every axis is a multiple of the size of
    that axis (zero included), the table is the identity: entry [k] is
    [k]. *)
Theorem roll_whole_turns_identity (shape axis_v shift_v : list Z) :
  shape <> [] ->
  Forall (fun d => 0 < d) shape ->
  Size shape <= INT_MAX ->
  Forall (fun a => - ndim shape <= a < ndim shape) axis_v ->
  length shift_v = 1%nat \/ length shift_v = length axis_v ->
  Forall2 (fun s d => s mod d = 0)
    (per_axis_shifts (length shape) (roll_normalize_axes (ndim shape) axis_v)
       shift_v) shape ->
  exists table,
    roll_new_index shape axis_v (Some shift_v) = Ok table /\
    length table = Z.to_nat (Size shape) /\
    forall k, 0 <= k < Size shape -> table !! Z.to_nat k = Some k.
Proof.
  intros Hne Hpos Hmax Haxes Hlen Hmul.
  destruct (roll_new_index_entries shape axis_v shift_v)
    as (table & Htab & Hl & Hent); try done.
  exists table. split; [done|]. split; [done|].
  intros k Hk.
  pose proof (unravel_in_shape _ _ Hpos Hk) as Hjs.
  pose proof (Hent _ Hjs) as Hx.
  rewrite roll_source_multiple in Hx by done.
  by rewrite ravel_unravel in Hx by done.
Qed.

Lemma roll_whole_turns_identity_witness :
  exists table,
    roll_new_index [2; 3] [-1; 0] (Some [-6; 4]) = Ok table /\
    length table = Z.to_nat (Size [2; 3]) /\
    forall k, 0 <= k < Size [2; 3] -> table !! Z.to_nat k = Some k.
Proof.
  apply (roll_whole_turns_identity [2; 3] [-1; 0] [-6; 4]).
  - discriminate.
  - repeat constructor.
  - vm_compute. discriminate.
  - repeat constructor; vm_compute; discriminate.
  - right. reflexivity.
  - vm_compute. repeat constructor.
Defined.

(** ** The legal-range step, case by case *)

(** X12.  For a shift within [int] that is not below [-d], the loop under
    "keep shift in a legal range" leaves the floor-mod of the shift by the
    dimension size [d], a value in [0, d). *)
Theorem legal_range_step_floor_mod (s d : Z) :
  fits_int s -> 0 < d <= INT_MAX -> - d <= s ->
  legal_shift s d = s mod d /\ 0 <= legal_shift s d < d.
Proof.
  intros Hs Hd Hlow. rewrite legal_shift_floor_mod by done.
  split; [done | apply Z.mod_pos_bound; lia].
Qed.

Lemma legal_range_step_floor_mod_witness :
  legal_shift (-3) 3 = (-3) mod 3 /\ 0 <= legal_shift (-3) 3 < 3.
Proof.
  apply (legal_range_step_floor_mod (-3) 3);
    unfold fits_int, INT_MIN, INT_MAX; lia.
Defined.

(** X13.  Whatever the legal-range step leaves for a shift within [int]
    (also the negative value it leaves for a shift below [-d]), the row built
    from it for the axis is the row of the floor-mod shift: the leftover never
    reaches the table. *)
Theorem legal_range_step_same_row (s d : Z) :
  fits_int s -> 0 < d <= INT_MAX ->
  roll_axis_row d (legal_shift s d) = roll_axis_row d (s mod d).
Proof.
  intros Hs Hd.
  pose proof (Z.mod_pos_bound s d) as Hm.
  assert (Hfit : fits_int (s mod d)) by int_bounds.
  assert (E : legal_shift (s mod d) d = s mod d).
  { rewrite legal_shift_floor_mod by (done || lia). apply Z.mod_mod. lia. }
  rewrite <- E.
  apply list_eq. intros k.
  destruct (decide (k < Z.to_nat d)%nat) as [Hk|Hk].
  - rewrite <- (Nat2Z.id k).
    rewrite !roll_axis_row_lookup by (done || lia).
    f_equal. by rewrite Zminus_mod_idemp_r.
  - rewrite !lookup_ge_None_2; [done | |]; rewrite roll_axis_row_length; lia.
Qed.

Lemma legal_range_step_same_row_witness :
  roll_axis_row 3 (legal_shift (-7) 3) = roll_axis_row 3 ((-7) mod 3).
Proof.
  apply (legal_range_step_same_row (-7) 3);
    unfold fits_int, INT_MIN, INT_MAX; lia.
Defined.

(** ** Axes the validation loop does reject *)

(** X14.  On a non-empty input in per-axis mode, an axis that is at or
    above the rank after normalisation, at any position of the list, or a
    first axis that is still negative after normalisation, stops the call
    with a failed check; the memory is unchanged, whatever the shift is. *)
Theorem roll_axes_rejected {DType : Type} (dadd : DType -> DType -> DType)
    (x y : TBlob) (req : OpReqType) (axis_v : list Z) (shift_o : option (list Z))
    (st : gmap nat (list DType)) :
  Size (shape_ x) <> 0 ->
  (exists a, a ∈ roll_normalize_axes (ndim (shape_ x)) axis_v /\
             ndim (shape_ x) <= a) \/
  (exists a0 rest, axis_v = a0 :: rest /\ a0 < - ndim (shape_ x)) ->
  NumpyRollCompute dadd {| shift := shift_o; axis := Some axis_v |} [x] [req] [y] st
  = (Err CheckFailed, st).
Proof.
  intros Hsize H. rewrite NumpyRollCompute_single. cbn [axis shift].
  destruct (Z.eqb_spec (Size (shape_ x)) 0); [done|].
  unfold roll_new_index.
  destruct H as [(a & Ha & Hge) | (a0 & rest & -> & Hneg)].
  - by rewrite (roll_axis_too_large_rejected _ _ a).
  - cbn [roll_normalize_axes map].
    destruct (Z.ltb_spec a0 0); [|unfold ndim in *; lia].
    by rewrite roll_first_axis_negative_rejected by lia.
Qed.

Lemma roll_axes_rejected_witness :
  NumpyRollCompute Z.add {| shift := Some [1]; axis := Some [0; 2] |}
    [ex_in] [kWriteTo] [ex_out] ex_store = (Err CheckFailed, ex_store) /\
  NumpyRollCompute Z.add {| shift := None; axis := Some [-3; 0] |}
    [ex_in] [kWriteTo] [ex_out] ex_store = (Err CheckFailed, ex_store).
Proof.
  split.
  - apply (roll_axes_rejected Z.add); [vm_compute; discriminate|].
    left. exists 2. split; [|vm_compute; discriminate].
    simpl. apply list_elem_of_further, list_elem_of_here.
  - apply (roll_axes_rejected Z.add); [vm_compute; discriminate|].
    right. exists (-3), [0]. split; [reflexivity | reflexivity].
Defined.

(** ** Row views *)

(** X15.  The row view taken by vstack is a legal reshape and a fixed
    point: it has the element count of the blob, it has rank at least 2, and
    taking the row view of a row view changes nothing. *)
Theorem vstack_row_view_reshape (b : TBlob) :
  Size (shape_ (vstack_row_view b)) = Size (shape_ b) /\
  2 <= ndim (shape_ (vstack_row_view b)) /\
  vstack_row_view (vstack_row_view b) = vstack_row_view b.
Proof.
  destruct (vstack_row_view_spec b) as (Hp & Hsmall & Hbig).
  destruct (Z_le_gt_dec (ndim (shape_ b)) 1) as [Hle|Hgt].
  - specialize (Hsmall Hle).
    assert (Hrank : ndim (shape_ (vstack_row_view b)) = 2) by (by rewrite Hsmall).
    split; [|split].
    + rewrite Hsmall, !Size_cons. change (Size []) with 1. lia.
    + lia.
    + destruct (vstack_row_view_spec (vstack_row_view b)) as (_ & _ & H2).
      apply H2. lia.
  - rewrite Hbig by lia. split; [done|]. split; [lia|].
    by rewrite Hbig by lia.
Qed.

(** ** What a roll may write *)

Section Frame.

Context {DType : Type} (dadd : DType -> DType -> DType).

Implicit Types (st : gmap nat (list DType)).








End Frame.



(** ** Axes that are not rolled *)

(** X17.  Naming one more axis with shift 0 changes nothing.  In
    per-axis mode with accepted axes and a shift list of the length of the
    axis list, adding at the end an axis that the list does not name yet,
    with shift 0, gives the same call: the shifts vector starts as zeros, so
    the added assignment stores what is already there. *)
Theorem roll_zero_shift_axis_is_noop {DType : Type}
    (dadd : DType -> DType -> DType) (x y : TBlob) (req : OpReqType)
    (axis_v shift_v : list Z) (b : Z) (st : gmap nat (list DType)) :
  Forall (fun a => - ndim (shape_ x) <= a < ndim (shape_ x)) axis_v ->
  - ndim (shape_ x) <= b < ndim (shape_ x) ->
  length shift_v = length axis_v ->
  (if b <? 0 then b + ndim (shape_ x) else b)
    ∉ roll_normalize_axes (ndim (shape_ x)) axis_v ->
  NumpyRollCompute dadd
    {| shift := Some (shift_v ++ [0]); axis := Some (axis_v ++ [b]) |}
    [x] [req] [y] st
  = NumpyRollCompute dadd {| shift := Some shift_v; axis := Some axis_v |}
      [x] [req] [y] st.
Proof.
  intros Hvalid Hb Hlen Hfresh.
  set (nd := ndim (shape_ x)) in *.
  set (b' := if b <? 0 then b + nd else b) in *.
  assert (Hb' : 0 <= b' < nd) by (unfold b'; destruct (Z.ltb_spec b 0); lia).
  pose proof (roll_normalize_axes_valid _ _ Hvalid) as Hv'.
  rewrite !NumpyRollCompute_single. cbn [axis shift]. fold nd.
  rewrite (roll_new_index_valid _ axis_v shift_v) by auto.
  rewrite (roll_new_index_valid _ (axis_v ++ [b]) (shift_v ++ [0])).
  2: { apply Forall_app. split; [done|]. by constructor. }
  2: { right. rewrite !length_app. simpl. lia. }
  fold nd.
  assert (Hnorm : roll_normalize_axes nd (axis_v ++ [b])
                  = roll_normalize_axes nd axis_v ++ [b']).
  { unfold roll_normalize_axes. by rewrite map_app. }
  assert (Hshifts :
    per_axis_shifts (length (shape_ x)) (roll_normalize_axes nd (axis_v ++ [b]))
      (shift_v ++ [0])
    = per_axis_shifts (length (shape_ x)) (roll_normalize_axes nd axis_v) shift_v).
  { unfold per_axis_shifts. rewrite Hnorm.
    rewrite !shift_pairs_zip
      by (rewrite ?length_app, ?roll_normalize_axes_length; simpl; lia).
    rewrite zip_with_app by (rewrite roll_normalize_axes_length; lia).
    cbn [zip_with]. rewrite assign_pairs_snoc. cbn [fst snd].
    apply list_insert_id.
    rewrite assign_pairs_lookup_other.
    - rewrite lookup_replicate_2; [done|]. unfold nd, ndim in Hb'. lia.
    - apply not_named_later; [lia| |].
      + eapply Forall_impl; [apply (zip_axes_valid _ _ _ Hv')|].
        intros ? ?; simpl in *; lia.
      + change (map fst (zip (roll_normalize_axes nd axis_v) shift_v))
          with (fst <$> zip (roll_normalize_axes nd axis_v) shift_v).
        rewrite fst_zip by (rewrite roll_normalize_axes_length; lia). done. }
  by rewrite Hshifts.
Qed.

Lemma roll_zero_shift_axis_is_noop_witness :
  NumpyRollCompute Z.add {| shift := Some ([1] ++ [0]); axis := Some ([1] ++ [-2]) |}
    [ex_in] [kWriteTo] [ex_out] ex_store
  = NumpyRollCompute Z.add {| shift := Some [1]; axis := Some [1] |}
      [ex_in] [kWriteTo] [ex_out] ex_store.
Proof.
  apply (roll_zero_shift_axis_is_noop Z.add ex_in ex_out kWriteTo [1] [1] (-2)).
  - repeat constructor; vm_compute; discriminate.
  - unfold ndim. simpl. lia.
  - reflexivity.
  - simpl. intros H. apply list_elem_of_singleton in H. discriminate.
Defined.

(** ** [RollDfs] only appends *)

Lemma for_each_Ok_rel {A S} (R : S -> S -> Prop) (body : S -> A -> result S)
    l s s' :
  (forall s0, R s0 s0) ->
  (forall s1 s2 s3, R s1 s2 -> R s2 s3 -> R s1 s3) ->
  (forall s0 a s1, a ∈ l -> body s0 a = Ok s1 -> R s0 s1) ->
  for_each body l s = Ok s' -> R s s'.
Proof.
  intros Hrefl Htrans. revert s.
  induction l as [|a l IH]; intros s Hbody Hrun; simpl in Hrun.
  - inversion Hrun; subst. apply Hrefl.
  - destruct (body s a) as [s1|e] eqn:E; [|done].
    cbn [mbind result_bind] in Hrun.
    apply (Htrans s s1 s').
    + apply (Hbody s a); [apply list_elem_of_here | done].
    + apply IH; [|done]. intros s0 a0 s2 Ha0. apply Hbody.
      by apply list_elem_of_further.
Qed.

(** X18.  [RollDfs] never touches what [new_index] already holds: for
    every fuel, vectors, index and offset, when it returns, the earlier
    contents are a prefix of the result. *)
Theorem RollDfs_extends_new_index (fuel : nat) (new_axes : list (list Z))
    (value out out' : list Z) (index nd mid : Z) :
  RollDfs fuel new_axes value out index nd mid = Ok out' ->
  out `prefix_of` out'.
Proof.
  revert out out' index mid.
  induction fuel as [|fuel IH]; intros out out' index mid Hrun; [done|].
  cbn [RollDfs] in Hrun.
  destruct (vec_at new_axes index) as [row|e]; [|done].
  cbn [mbind result_bind] in Hrun.
  match type of Hrun with
  | (for_each ?body ?l ?s ≫= _) = _ =>
      destruct (for_each body l s) as [[mid' out1]|e] eqn:Hloop; [|done]
  end.
  cbn [mbind result_bind snd] in Hrun. inversion Hrun; subst out1.
  apply (for_each_Ok_rel
           (fun (s1 s2 : Z * list Z) => snd s1 `prefix_of` snd s2)) in Hloop.
  - exact Hloop.
  - intros s0. reflexivity.
  - intros s1 s2 s3 H1 H2. by etrans.
  - intros [m o] a [m1 o1] _ Hbody. cbn [snd].
    destruct (index =? nd - 1).
    + inversion Hbody; subst. by apply prefix_app_r.
    + destruct (vec_at value (nd - 1 - index)) as [v|e]; [|done].
      cbn [mbind result_bind] in Hbody.
      match type of Hbody with
      | (RollDfs fuel ?na ?va ?o0 ?i0 ?n0 ?m0 ≫= _) = _ =>
          destruct (RollDfs fuel na va o0 i0 n0 m0) as [o2|e] eqn:Hrec; [|done]
      end.
      cbn [mbind result_bind] in Hbody. inversion Hbody; subst.
      by apply IH in Hrec.
Qed.

Lemma RollDfs_extends_new_index_witness :
  [99] `prefix_of` [99; 3; 4; 5; 0; 1; 2].
Proof.
  apply (RollDfs_extends_new_index 3 [[1; 0]; [0; 1; 2]] [1; 3] [99]
           [99; 3; 4; 5; 0; 1; 2] 0 2 0).
  vm_compute. reflexivity.
Defined.

(** ** Undoing a per-axis roll *)

Lemma roll_source_undo shape s1 s2 js :
  Forall2 (fun (p : Z * Z) d => (fst p + snd p) mod d = 0) (zip s1 s2) shape ->
  in_shape shape js ->
  roll_source shape s1 (roll_source shape s2 js) = js.
Proof.
  intros H. revert s1 s2 H js.
  induction shape as [|d ds IH]; intros s1 s2 H js Hjs.
  - by inversion Hjs.
  - inversion Hjs as [|? j ? js' Hj Hjs']; subst.
    destruct s1 as [|a s1]; [inversion H|].
    destruct s2 as [|b s2]; [inversion H|].
    cbn [zip_with] in H. inversion H as [|? ? ? ? Hab Hrest]; subst.
    cbn [roll_source fst snd] in *. f_equal; [|by apply IH].
    apply Z.mod_divide in Hab; [|lia]. destruct Hab as [q Hq].
    replace ((j + d - b) mod d + d - a) with ((j + d - b) mod d + (d - a)) by lia.
    rewrite Zplus_mod_idemp_l.
    replace (j + d - b + (d - a)) with (j + (2 - q) * d) by lia.
    rewrite Z.mod_add by lia. apply Z.mod_small. lia.
Qed.

(** X19.  A per-axis roll is undone by a roll whose shifts cancel it.
    For two valid per-axis configurations on the same shape whose assigned
    shifts add up, axis by axis, to a multiple of the size of the axis:
    rolling [x] into [y] with the first and [y] into [z] with the second, both
    written unconditionally, leaves in [z] the elements of [x].  The arrays
    have positive sizes and an element count within [int]; the buffer of [y]
    is distinct from those of [x] and [z]. *)
Theorem roll_axes_undo {DType : Type} (dadd : DType -> DType -> DType)
    (x y z : TBlob) (axis1 shift1 axis2 shift2 : list Z)
    (inb yb zb : list DType) (st : gmap nat (list DType)) :
  shape_ x <> [] ->
  Forall (fun d => 0 < d) (shape_ x) ->
  Size (shape_ x) <= INT_MAX ->
  shape_ y = shape_ x -> shape_ z = shape_ x ->
  Forall (fun a => - ndim (shape_ x) <= a < ndim (shape_ x)) axis1 ->
  Forall (fun a => - ndim (shape_ x) <= a < ndim (shape_ x)) axis2 ->
  length shift1 = 1%nat \/ length shift1 = length axis1 ->
  length shift2 = 1%nat \/ length shift2 = length axis2 ->
  Forall2 (fun (p : Z * Z) d => (fst p + snd p) mod d = 0)
    (zip (per_axis_shifts (length (shape_ x))
            (roll_normalize_axes (ndim (shape_ x)) axis1) shift1)
         (per_axis_shifts (length (shape_ x))
            (roll_normalize_axes (ndim (shape_ x)) axis2) shift2))
    (shape_ x) ->
  dptr_ x <> dptr_ y -> dptr_ y <> dptr_ z ->
  st !! dptr_ x = Some inb -> length inb = Z.to_nat (Size (shape_ x)) ->
  st !! dptr_ y = Some yb -> length yb = Z.to_nat (Size (shape_ x)) ->
  st !! dptr_ z = Some zb -> length zb = Z.to_nat (Size (shape_ x)) ->
  exists st1 st2,
    NumpyRollCompute dadd {| shift := Some shift1; axis := Some axis1 |}
      [x] [kWriteTo] [y] st = (Ok tt, st1) /\
    NumpyRollCompute dadd {| shift := Some shift2; axis := Some axis2 |}
      [y] [kWriteTo] [z] st1 = (Ok tt, st2) /\
    st2 !! dptr_ z = Some inb.
Proof.
  intros Hne Hpos Hmax Hy Hz Hax1 Hax2 Hl1 Hl2 Hcancel Hxy Hyz
    Hin Hinl Hyb Hybl Hzb Hzbl.
  pose proof (Size_pos _ Hpos) as HS.
  set (sh := shape_ x) in *.
  set (s1 := per_axis_shifts (length sh) (roll_normalize_axes (ndim sh) axis1) shift1) in *.
  set (s2 := per_axis_shifts (length sh) (roll_normalize_axes (ndim sh) axis2) shift2) in *.
  set (g1 := fun i : nat =>
               Z.to_nat (ravel sh (roll_source sh s1 (unravel sh (Z.of_nat i))))).
  set (g2 := fun i : nat =>
               Z.to_nat (ravel sh (roll_source sh s2 (unravel sh (Z.of_nat i))))).
  set (Y := gather dadd kWriteTo inb yb g1).
  set (Zb := gather dadd kWriteTo Y zb g2).
  assert (HYl : length Y = Z.to_nat (Size sh)) by (unfold Y; by rewrite gather_length).
  assert (Hs1 : length s1 = length sh) by apply per_axis_shifts_length.
  assert (Hs2 : length s2 = length sh) by apply per_axis_shifts_length.
  assert (Hg : forall (s : list Z) (i : nat), length s = length sh ->
            (i < Z.to_nat (Size sh))%nat ->
            in_shape sh (roll_source sh s (unravel sh (Z.of_nat i))) /\
            (Z.to_nat (ravel sh (roll_source sh s (unravel sh (Z.of_nat i))))
             < Z.to_nat (Size sh))%nat).
  { intros s i Hs Hi.
    assert (Hi' : 0 <= Z.of_nat i < Size sh) by lia.
    pose proof (roll_source_in_shape _ s _ Hs (unravel_in_shape _ _ Hpos Hi')) as Hr.
    split; [done|]. pose proof (ravel_bounds _ _ Hr). lia. }
  exists (<[dptr_ y := Y]> st), (<[dptr_ z := Zb]> (<[dptr_ y := Y]> st)).
  split; [|split].
  - apply (NumpyRollCompute_axes dadd x y kWriteTo axis1 shift1 inb yb); try done.
    by rewrite Hy.
  - pose proof (NumpyRollCompute_axes dadd y z kWriteTo axis2 shift2 Y zb
                  (<[dptr_ y := Y]> st)) as H2.
    rewrite Hy in H2. apply H2; try done.
    + by rewrite Hz.
    + by rewrite lookup_insert_eq.
    + by rewrite lookup_insert_ne.
  - rewrite lookup_insert_eq. f_equal. apply list_eq. intros i.
    destruct (decide (i < Z.to_nat (Size sh))%nat) as [Hi|Hi].
    2: { rewrite !lookup_ge_None_2; [done | lia |].
         unfold Zb. rewrite gather_length. lia. }
    destruct (Hg s2 i Hs2 Hi) as [Hin2 Hlt2].
    unfold Zb. rewrite gather_kWriteTo_lookup by (rewrite ?HYl; done || lia).
    unfold Y. rewrite gather_kWriteTo_lookup.
    2: { rewrite Hybl. exact Hlt2. }
    2: { rewrite Hinl. apply (Hg s1 (g2 i) Hs1). exact Hlt2. }
    f_equal. unfold g1, g2.
    pose proof (ravel_bounds _ _ Hin2) as Hb.
    rewrite Z2Nat.id by lia.
    rewrite unravel_ravel by done.
    rewrite roll_source_undo by (done || (apply unravel_in_shape; [done|lia])).
    rewrite ravel_unravel by (done || lia). lia.
Qed.

Lemma roll_axes_undo_witness :
  exists st1 st2,
    NumpyRollCompute Z.add {| shift := Some [1; -4]; axis := Some [-1; 0] |}
      [ex_in] [kWriteTo] [ex_out] (<[3%nat := [7; 7; 7; 7; 7; 7]]> ex_store)
    = (Ok tt, st1) /\
    NumpyRollCompute Z.add {| shift := Some [2; 5] ; axis := Some [0; 1] |}
      [ex_out] [kWriteTo] [{| shape_ := [2; 3]; dptr_ := 3 |}] st1
    = (Ok tt, st2) /\
    st2 !! 3%nat = Some [1; 2; 3; 4; 5; 6].
Proof.
  apply (roll_axes_undo Z.add ex_in ex_out {| shape_ := [2; 3]; dptr_ := 3 |}
           [-1; 0] [1; -4] [0; 1] [2; 5]
           [1; 2; 3; 4; 5; 6] [0; 0; 0; 0; 0; 0] [7; 7; 7; 7; 7; 7]);
    try reflexivity; try (vm_compute; discriminate).
  - repeat constructor.
  - repeat constructor; vm_compute; discriminate.
  - repeat constructor; vm_compute; discriminate.
  - right. reflexivity.
  - right. reflexivity.
  - vm_compute. repeat constructor.
Defined.

(** ** The order of the axes *)

Lemma assign_pairs_perm (p1 p2 : list (Z * Z)) :
  p1 ≡ₚ p2 ->
  NoDup (fst <$> p1) ->
  Forall (fun p => 0 <= fst p) p1 ->
  forall shifts, assign_pairs p1 shifts = assign_pairs p2 shifts.
Proof.
  induction 1 as [|p l1 l2 Hperm IH|p q l|l1 l2 l3 H12 IH12 H23 IH23];
    intros Hnd Hnn shifts.
  - done.
  - rewrite !assign_pairs_cons. apply IH.
    + by apply NoDup_cons in Hnd as [_ ?].
    + by inversion Hnn.
  - rewrite !assign_pairs_cons.
    rewrite fmap_cons, fmap_cons in Hnd.
    apply NoDup_cons in Hnd as [Hq _].
    inversion Hnn as [|? ? Hq0 Hnn']; subst. inversion Hnn' as [|? ? Hp0 _]; subst.
    rewrite list_insert_insert_ne; [done|].
    intros Heq. apply Hq. apply elem_of_cons. left. lia.
  - rewrite IH12 by done. apply IH23.
    + by rewrite <- H12.
    + by rewrite <- H12.
Qed.

(** X20.  When every axis is named once, the order of the (axis, shift)
    pairs does not matter: two valid per-axis configurations whose
    normalised pairs are a rearrangement of each other give the same
    call. *)
Theorem roll_axis_order_irrelevant {DType : Type}
    (dadd : DType -> DType -> DType) (x y : TBlob) (req : OpReqType)
    (axis1 shift1 axis2 shift2 : list Z) (st : gmap nat (list DType)) :
  Forall (fun a => - ndim (shape_ x) <= a < ndim (shape_ x)) axis1 ->
  Forall (fun a => - ndim (shape_ x) <= a < ndim (shape_ x)) axis2 ->
  length shift1 = length axis1 ->
  length shift2 = length axis2 ->
  NoDup (roll_normalize_axes (ndim (shape_ x)) axis1) ->
  zip (roll_normalize_axes (ndim (shape_ x)) axis1) shift1
    ≡ₚ zip (roll_normalize_axes (ndim (shape_ x)) axis2) shift2 ->
  NumpyRollCompute dadd {| shift := Some shift1; axis := Some axis1 |}
    [x] [req] [y] st
  = NumpyRollCompute dadd {| shift := Some shift2; axis := Some axis2 |}
      [x] [req] [y] st.
Proof.
  intros Hv1 Hv2 Hl1 Hl2 Hnd Hperm.
  rewrite !NumpyRollCompute_single. cbn [axis shift].
  rewrite (roll_new_index_valid _ axis1 shift1) by auto.
  rewrite (roll_new_index_valid _ axis2 shift2) by auto.
  unfold per_axis_shifts.
  rewrite !shift_pairs_zip by (by rewrite roll_normalize_axes_length).
  rewrite (assign_pairs_perm _ _ Hperm); [done| |].
  - rewrite fst_zip by (rewrite roll_normalize_axes_length; lia). done.
  - eapply Forall_impl;
      [apply (zip_axes_valid _ _ _ (roll_normalize_axes_valid _ _ Hv1))|].
    intros ? ?; simpl in *; lia.
Qed.

Lemma roll_axis_order_irrelevant_witness :
  NumpyRollCompute Z.add {| shift := Some [1; -4]; axis := Some [1; 0] |}
    [ex_in] [kWriteTo] [ex_out] ex_store
  = NumpyRollCompute Z.add {| shift := Some [-4; 1]; axis := Some [0; -1] |}
      [ex_in] [kWriteTo] [ex_out] ex_store.
Proof.
  apply (roll_axis_order_irrelevant Z.add ex_in ex_out kWriteTo
           [1; 0] [1; -4] [0; -1] [-4; 1]).
  - repeat constructor; vm_compute; discriminate.
  - repeat constructor; vm_compute; discriminate.
  - reflexivity.
  - reflexivity.
  - apply (bool_decide_eq_true_1 _). vm_compute. reflexivity.
  - simpl. apply perm_swap.
Defined.

(** ** Per-axis periodicity *)

Lemma roll_source_congr shape s1 s2 js :
  Forall2 (fun (p : Z * Z) d => (fst p - snd p) mod d = 0) (zip s1 s2) shape ->
  in_shape shape js ->
  roll_source shape s1 js = roll_source shape s2 js.
Proof.
  intros H. revert s1 s2 H js.
  induction shape as [|d ds IH]; intros s1 s2 H js Hjs.
  - by inversion Hjs.
  - inversion Hjs as [|? j ? js' Hj Hjs']; subst.
    destruct s1 as [|a s1]; [inversion H|].
    destruct s2 as [|b s2]; [inversion H|].
    cbn [zip_with] in H. inversion H as [|? ? ? ? Hab Hrest]; subst.
    cbn [roll_source fst snd] in *. f_equal; [|by apply IH].
    apply Z.mod_divide in Hab; [|lia]. destruct Hab as [q Hq].
    replace (j + d - a) with (j + d - b + (- q) * d) by lia.
    by rewrite Z.mod_add by lia.
Qed.

(** X21.  Per-axis periodicity.  Two valid per-axis configurations on the
    same input whose assigned shifts differ, axis by axis, by a multiple of
    the size of the axis give the same call, on every memory; this holds for
    shifts below [-d] too, where the legal-range step leaves a negative
    value. *)
Theorem roll_axes_periodic {DType : Type} (dadd : DType -> DType -> DType)
    (x y : TBlob) (req : OpReqType) (axis1 shift1 axis2 shift2 : list Z)
    (st : gmap nat (list DType)) :
  shape_ x <> [] ->
  Forall (fun d => 0 < d) (shape_ x) ->
  Size (shape_ x) <= INT_MAX ->
  Forall (fun a => - ndim (shape_ x) <= a < ndim (shape_ x)) axis1 ->
  Forall (fun a => - ndim (shape_ x) <= a < ndim (shape_ x)) axis2 ->
  length shift1 = 1%nat \/ length shift1 = length axis1 ->
  length shift2 = 1%nat \/ length shift2 = length axis2 ->
  Forall2 (fun (p : Z * Z) d => (fst p - snd p) mod d = 0)
    (zip (per_axis_shifts (length (shape_ x))
            (roll_normalize_axes (ndim (shape_ x)) axis1) shift1)
         (per_axis_shifts (length (shape_ x))
            (roll_normalize_axes (ndim (shape_ x)) axis2) shift2))
    (shape_ x) ->
  NumpyRollCompute dadd {| shift := Some shift1; axis := Some axis1 |}
    [x] [req] [y] st
  = NumpyRollCompute dadd {| shift := Some shift2; axis := Some axis2 |}
      [x] [req] [y] st.
Proof.
  intros Hne Hpos Hmax Hax1 Hax2 Hl1 Hl2 Hcongr.
  rewrite !NumpyRollCompute_single. cbn [axis shift].
  destruct (roll_new_index_entries (shape_ x) axis1 shift1)
    as (t1 & -> & Hlen1 & Hent1); try done.
  destruct (roll_new_index_entries (shape_ x) axis2 shift2)
    as (t2 & -> & Hlen2 & Hent2); try done.
  assert (Heq : t1 = t2); [|by rewrite Heq].
  apply list_eq. intros i.
  destruct (decide (i < Z.to_nat (Size (shape_ x)))%nat) as [Hi|Hi].
  - assert (Hi' : 0 <= Z.of_nat i < Size (shape_ x)) by lia.
    pose proof (unravel_in_shape _ _ Hpos Hi') as Hjs.
    pose proof (Hent1 _ Hjs) as H1. pose proof (Hent2 _ Hjs) as H2.
    rewrite ravel_unravel, Nat2Z.id in H1, H2 by done.
    rewrite H1, H2. do 2 f_equal. by apply roll_source_congr.
  - rewrite !lookup_ge_None_2; [done | lia | lia].
Qed.

Lemma roll_axes_periodic_witness :
  NumpyRollCompute Z.add {| shift := Some [-7]; axis := Some [1] |}
    [ex_in] [kWriteTo] [ex_out] ex_store
  = NumpyRollCompute Z.add {| shift := Some [2]; axis := Some [-1] |}
      [ex_in] [kWriteTo] [ex_out] ex_store.
Proof.
  apply (roll_axes_periodic Z.add ex_in ex_out kWriteTo [1] [-7] [-1] [2]).
  - discriminate.
  - repeat constructor.
  - vm_compute. discriminate.
  - repeat constructor; vm_compute; discriminate.
  - repeat constructor; vm_compute; discriminate.
  - left. reflexivity.
  - left. reflexivity.
  - vm_compute. repeat constructor.
Defined.

(** ** Rank 0 in per-axis mode *)

(** X22.  A 0-d input in per-axis mode.  With an input of shape [()]
    (one element) and an empty axis list, every shift list of length 0 or 1
    passes the checks, and the table construction then indexes [new_axes[0]]
    although [new_axes] is empty: the call does not reach the kernel and the
    memory is unchanged. *)
Theorem roll_rank0_axis_list {DType : Type} (dadd : DType -> DType -> DType)
    (x y : TBlob) (req : OpReqType) (shift_v : list Z)
    (st : gmap nat (list DType)) :
  shape_ x = [] ->
  (length shift_v <= 1)%nat ->
  NumpyRollCompute dadd {| shift := Some shift_v; axis := Some [] |}
    [x] [req] [y] st
  = (Err OutOfBounds, st).
Proof.
  intros Hshape Hlen. rewrite NumpyRollCompute_single. cbn [axis shift].
  rewrite Hshape. change (Size [] =? 0) with false. cbv iota.
  destruct shift_v as [|s [|? ?]]; [reflexivity | reflexivity | simpl in Hlen; lia].
Qed.

Lemma roll_rank0_axis_list_witness :
  NumpyRollCompute Z.add {| shift := Some [3]; axis := Some [] |}
    [{| shape_ := []; dptr_ := 1 |}] [kWriteTo] [{| shape_ := []; dptr_ := 2 |}]
    ex_store
  = (Err OutOfBounds, ex_store).
Proof.
  apply (roll_rank0_axis_list Z.add); [reflexivity | simpl; lia].
Defined.
